(** * net_parser: BaseConfigParser

    A shallow embedding of [net_parser/config/BaseConfigParser.py]: the
    indentation normaliser [fix_indents] and the regex driven query and
    extraction methods ([find_objects], [get_section_by_parents],
    [match_to_dict], [property_autoparse], [section_property_autoparse]).

    Python integers are [Z]; Python strings are [string], read as sequences
    of code points below 256; dictionaries with string keys are
    [gmap string _]; logging and exceptions are threaded through a small
    monad. *)

From Stdlib Require Import ZArith Lia Ascii String.
From stdpp Require Import base list strings gmap fin_maps.

Local Open Scope Z_scope.

(** ** Strings *)

Module Str.

(** [line.lstrip(" ")]: drop the leading run of space characters. *)
Fixpoint lstrip_space (s : string) : string :=
  match s with
  | String c r => if Ascii.eqb c " "%char then lstrip_space r else s
  | EmptyString => EmptyString
  end.

(** The characters [str.strip()] removes, among code points below 256:
    TAB, LF, VT, FF, CR, FS, GS, RS, US, space, NEL and NBSP. *)
Definition isspace (c : ascii) : bool :=
  let n := nat_of_ascii c in
  ((9 <=? n) && (n <=? 13) || (28 <=? n) && (n <=? 32)
   || (n =? 133) || (n =? 160))%nat.

Fixpoint lstrip (s : string) : string :=
  match s with
  | String c r => if isspace c then lstrip r else s
  | EmptyString => EmptyString
  end.

(** Drop the trailing whitespace: a character is kept when it is not
    whitespace or when something is kept after it. *)
Fixpoint rstrip (s : string) : string :=
  match s with
  | String c r =>
      match rstrip r with
      | EmptyString => if isspace c then EmptyString else String c EmptyString
      | r' => String c r'
      end
  | EmptyString => EmptyString
  end.

(** [s.strip()] *)
Definition strip (s : string) : string := rstrip (lstrip s).

(** [" " * n]: the empty string when [n <= 0]. *)
Definition spaces (n : Z) : string :=
  string_of_list_ascii (replicate (Z.to_nat n) " "%char).

Definition len (s : string) : Z := Z.of_nat (String.length s).

End Str.

(** ** Indentation normaliser *)

(** [_get_indent]: [len(line) - len(line.lstrip(" "))] *)
Definition _get_indent (line : string) : Z :=
  Str.len line - Str.len (Str.lstrip_space line).

(** One iteration of the first loop of [fix_indents]: [fixed] is
    [fixed_indent_map] so far and [i] the loop index.  The indices read are
    in range: [i] ranges over [range(len(indent_map))], [i-1] is read only
    when [i <> 0], and [fixed_indent_map[-1]] only after the first
    iteration has appended an entry. *)
Definition fix_step (indent_map : list Z) (fixed : list Z) (i : nat) : list Z :=
  if (i =? 0)%nat then fixed ++ [0]
  else if indent_map !!! i =? 0 then fixed ++ [0]
  else if indent_map !!! i =? indent_map !!! (i - 1)%nat
       then fixed ++ [List.last fixed 0]
  else if indent_map !!! i >? indent_map !!! (i - 1)%nat
       then fixed ++ [List.last fixed 0 + 1]
  else if indent_map !!! i <? indent_map !!! (i - 1)%nat
       then fixed ++ [List.last fixed 0 - 1]
  else fixed.

(** [fixed_indent_map] as the first loop of [fix_indents] leaves it. *)
Definition fixed_indent_map (indent_map : list Z) : list Z :=
  foldl (fix_step indent_map) [] (seq 0 (length indent_map)).

(** The second loop of [fix_indents]:
    [config_lines_str[i] = " "*val + config_lines_str[i].strip()]. *)
Definition rewrite_line (lines : list string) (iv : nat * Z) : list string :=
  let '(i, val) := iv in
  <[i := Str.spaces val +:+ Str.strip (lines !!! i)]> lines.

(** [fix_indents], as a function from the old to the new value of
    [self.config_lines_str]. *)
Definition fix_indents (config_lines_str : list string) : list string :=
  let indent_map := map _get_indent config_lines_str in
  foldl rewrite_line config_lines_str (imap pair (fixed_indent_map indent_map)).

(** The depth the first loop appends at index [i], given the depth [prev]
    of the preceding line. *)
Definition next_depth (indent_map : list Z) (prev : Z) (i : nat) : Z :=
  if (i =? 0)%nat then 0
  else if indent_map !!! i =? 0 then 0
  else if indent_map !!! i =? indent_map !!! (i - 1)%nat then prev
  else if indent_map !!! i >? indent_map !!! (i - 1)%nat then prev + 1
  else prev - 1.

(** What the second loop writes on a line whose fixed depth is [d]. *)
Definition rewritten (d : Z) (line : string) : string :=
  Str.spaces d +:+ Str.strip line.

Definition starts_with_space (s : string) : bool :=
  match s with String c _ => Ascii.eqb c " "%char | EmptyString => false end.

(** Raw indent of line [i], its entry in the fixed indent map, and the
    indent of line [i] once [fix_indents] has rewritten it. *)
Definition raw_indent (lines : list string) (i : nat) : Z :=
  map _get_indent lines !!! i.
Definition fixed_depth (lines : list string) (i : nat) : Z :=
  fixed_indent_map (map _get_indent lines) !!! i.
Definition final_depth (lines : list string) (i : nat) : Z :=
  map _get_indent (fix_indents lines) !!! i.

(** Adjacent entries differ by at most one. *)
Definition unit_steps (depths : list Z) : Prop :=
  ∀ i a b, depths !! i = Some a → depths !! S i = Some b →
           b - a = -1 ∨ b - a = 0 ∨ b - a = 1.

(** ** Values, patterns and configuration lines *)

(** A Python dictionary from group names to the captured text or [None]. *)
Abbreviation dict := (gmap string (option string)).

(** A match object of Python's [re]: the text captured by groups 0, 1, ...;
    [None] for a group that took no part in the match. *)
Abbreviation Match := (list (option string)).

(** A compiled pattern of Python's [re].  The library is external to the
    repository: a pattern is what the parser can observe of it. *)
Record Pattern := {
  p_search : string → option Match;   (* [pattern.search(text)] *)
  p_match : string → option Match;    (* [pattern.match(text)] *)
  p_groups : nat;                     (* [pattern.groups] *)
  groupindex : gmap string nat        (* [pattern.groupindex] *)
}.

(** [re.compile(pattern=text, flags=flags)]; [None] when it raises. *)
Class ReEngine := re_compile : string → Z → option Pattern.

(** [re.MULTILINE] *)
Definition MULTILINE : Z := 8.

(** What callers pass as a regex: [None], a string, or a compiled pattern
    (an instance of [PATTERN_TYPE]). *)
Inductive Regex :=
  | RNone
  | RStr (s : string)
  | RPat (p : Pattern).

(** The [group] argument: [None], an index, or a name
    ([Union[int, str, None]]). *)
Inductive Group :=
  | GNone
  | GInt (i : nat)
  | GStr (name : string).

(** The sentinel asking for all named groups. *)
Definition ALL : Group := GStr "ALL".

(** What a search on a line returns. *)
Inductive Value :=
  | VNone
  | VStr (s : string)
  | VDict (d : dict)
  | VMatch (m : Match).

(** Python truthiness, as [if result:] tests it. *)
Definition truthy (v : Value) : bool :=
  match v with
  | VNone => false
  | VStr s => negb (String.eqb s EmptyString)
  | VDict d => negb (bool_decide (d = ∅))
  | VMatch _ => true
  end.

(** A configuration line with the lines below it. *)
#[warnings="-register-all"]
Inductive BaseConfigLine :=
  ConfigLine (number : nat) (text : string) (children : list BaseConfigLine).

Definition number (l : BaseConfigLine) : nat :=
  let 'ConfigLine n _ _ := l in n.
Definition text (l : BaseConfigLine) : string :=
  let 'ConfigLine _ t _ := l in t.

Module Line.
Section Line.
Context `{ReEngine}.

(** Modelled from the spec: the class [BaseConfigLine]
    (net_parser/config/BaseConfigLine.py) is missing from the sources; its
    methods [get_children], [is_parent], [re_search], [re_match] and
    [re_search_children] follow the spec's data model and sections 4.3 to
    4.5 and 7. *)

(** Modelled from the spec: [get_children] is missing; [children] is the
    ordered sequence of nodes owned by this node. *)
Definition get_children (l : BaseConfigLine) : list BaseConfigLine :=
  let 'ConfigLine _ _ c := l in c.

(** Modelled from the spec: [is_parent] is missing; a node is a parent
    iff it has at least one child. *)
Definition is_parent (l : BaseConfigLine) : bool :=
  match get_children l with [] => false | _ :: _ => true end.

(** Modelled from the spec: pattern resolution of the line methods is
    missing; a pattern given as text is compiled, a compiled pattern is
    used directly, and a null pattern stays null (section 7: queries
    using it match nothing). *)
Definition resolve (regex : Regex) : option Pattern :=
  match regex with
  | RNone => None
  | RStr s => re_compile s MULTILINE
  | RPat p => Some p
  end.

(** [m.group(i)] *)
Definition group_value (m : Match) (i : nat) : Value :=
  match m !! i with
  | Some (Some s) => VStr s
  | _ => VNone
  end.

(** [m.groupdict()]: every named group, [None] for the unmatched ones. *)
Definition groupdict (p : Pattern) (m : Match) : dict :=
  (λ i, mjoin (m !! i)) <$> groupindex p.

(** Modelled from the spec: [re_search] is missing.  No pattern or no
    match gives [None]; otherwise, by [group]: unspecified, the match
    itself (the node counts as matching); a name or index, the captured
    value; the sentinel, the full named-group mapping. *)
Definition re_search (l : BaseConfigLine) (regex : Regex) (group : Group) : Value :=
  match resolve regex with
  | None => VNone
  | Some p =>
      match p_search p (text l) with
      | None => VNone
      | Some m =>
          match group with
          | GNone => VMatch m
          | GInt i => group_value m i
          | GStr name =>
              if String.eqb name "ALL" then VDict (groupdict p m)
              else match groupindex p !! name with
                   | Some i => group_value m i
                   | None => VNone
                   end
          end
      end
  end.

(** Modelled from the spec: [re_match] is missing; the match of the
    pattern against the node's text, or [None]. *)
Definition re_match (l : BaseConfigLine) (regex : Regex) : Value :=
  match resolve regex with
  | None => VNone
  | Some p =>
      match p_match p (text l) with
      | None => VNone
      | Some m => VMatch m
      end
  end.

(** Modelled from the spec: [re_search_children] is missing; the search
    runs over the direct children only and gives one result per matching
    child, in order. *)
Definition re_search_children (l : BaseConfigLine) (regex : Regex) (group : Group)
  : list Value :=
  map (λ c, re_search c regex group)
      (List.filter (λ c, truthy (re_search c regex GNone)) (get_children l)).

End Line.
End Line.

(** ** Logging and exceptions *)

Inductive Level := DEBUG | INFO | WARNING | ERROR.

(** The messages the parser logs, with the values formatted into them. *)
Inductive LogMsg :=
  | CompileFailed (regex : Regex)
      (* Error while compiling regex '{}'. Exception: {} *)
  | MatchedLines (n : nat) (regex : Regex)
      (* Matched {} lines for query '{}' *)
  | MultipleParents
      (* Multiple lines matched parent statement. Cannot determine config section. *)
  | NoParents
      (* No lines matched parent statement. Cannot determine config section. *)
  | MultipleUpdates (pattern : Regex) (candidate : BaseConfigLine).
      (* Multiple possible updates found for Pattern: '{}' on Candidate: '{}' *)

Abbreviation Log := (list (Level * LogMsg)).

Inductive Exn :=
  | AttributeError (attr : string)
  | UnboundLocalError (name : string)
  | TypeError
  | ValueError.

Inductive Result (A : Type) :=
  | Ok (a : A)
  | Raise (e : Exn).
Arguments Ok {A} a.
Arguments Raise {A} e.

(** A method body: it extends the log and returns or raises. *)
Definition Py (A : Type) : Type := Log → Result A * Log.

Global Instance Py_ret : MRet Py := λ A a log, (Ok a, log).
Global Instance Py_bind : MBind Py := λ A B f m log,
  match m log with
  | (Ok a, log') => f a log'
  | (Raise e, log') => (Raise e, log')
  end.

Definition raise {A} (e : Exn) : Py A := λ log, (Raise e, log).
Definition logger (lvl : Level) (msg : LogMsg) : Py unit :=
  λ log, (Ok tt, log ++ [(lvl, msg)]).

(** A [for] loop threading an accumulator. *)
Fixpoint for_each {A B} (f : A → B → Py A) (a : A) (l : list B) : Py A :=
  match l with
  | [] => mret a
  | x :: r => a' ← f a x; for_each f a' r
  end.

(** ** The parser *)

(** The [config] argument: a path, the whole text, or the list of lines. *)
Inductive Config :=
  | ConfigPath (path : string)
  | ConfigText (s : string)
  | ConfigLines (l : list string).

(** The attributes of a [BaseConfigParser] instance.  An attribute that
    has not been assigned is [None]: reading it raises [AttributeError]. *)
Record BaseConfigParser := {
  verbosity : Z;
  _config : Config;
  lines : list BaseConfigLine;
  config_lines_str : option (list string);
  minimal_results : option bool
}.

(** [__init__]: it assigns [verbosity], [logger], [_config] and [lines],
    and nothing else. *)
Definition __init__ (config : Config) (verbosity : Z) : BaseConfigParser :=
  {| verbosity := verbosity;
     _config := config;
     lines := [];
     config_lines_str := None;
     minimal_results := None |}.

(** What [find_objects] collects: lines, or the results of the searches. *)
Inductive Obj :=
  | OLine (l : BaseConfigLine)
  | OValue (v : Value).

(** An element of the list [section_property_autoparse] returns. *)
Inductive Entry :=
  | EntryDict (entry : dict)
  | EntryWithLine (candidate : Obj) (entry : dict).

(** The [parent] argument of [section_property_autoparse]. *)
Inductive Parent :=
  | ParentLine (l : BaseConfigLine)
  | ParentRegex (r : Regex).

Module Parser.
Section Parser.
Context `{ReEngine}.
Import Line.

Implicit Types (self : BaseConfigParser) (line : BaseConfigLine).

(** [_compile_regex]: any exception of [re.compile] is caught and logged.
    [re.compile] rejects [None], and rejects a compiled pattern given
    together with flags. *)
Definition _compile_regex (regex : Regex) (flags : Z) : Py (option Pattern) :=
  let pattern :=
    match regex with
    | RStr s => re_compile s flags
    | RPat p => if flags =? 0 then Some p else None
    | RNone => None
    end in
  match pattern with
  | Some p => mret (Some p)
  | None => logger ERROR (CompileFailed regex);; mret None
  end.

(** The value [find_objects] hands to [line.re_search]. *)
Definition as_regex (pattern : option Pattern) : Regex :=
  match pattern with Some p => RPat p | None => RNone end.

(** One iteration of the loop of [find_objects]. *)
Definition find_step (pattern : Regex) (group : Group)
    (acc : list BaseConfigLine * list Value) (line : BaseConfigLine)
  : list BaseConfigLine * list Value :=
  let result := re_search line pattern group in
  if truthy result then (acc.1 ++ [line], acc.2 ++ [result]) else acc.

Definition find_objects self (regex : Regex) (flags : Z) (group : Group)
  : Py (list Obj) :=
  pattern ← match regex with
            | RPat p => mret (Some p)
            | _ => _compile_regex regex flags
            end;
  let '(lines, results) :=
    foldl (find_step (as_regex pattern) group) ([], []) (lines self) in
  match group with
  | GNone =>
      let results := map OLine lines in
      logger DEBUG (MatchedLines (length results) regex);;
      mret results
  | _ => mret (map OValue results)
  end.

(** One iteration of the loop of [get_section_by_parents], and the loop. *)
Fixpoint section_walk (section : list BaseConfigLine) (parents : list Regex)
  : Py (list BaseConfigLine) :=
  match parents with
  | [] => mret section
  | parent :: rest =>
      let section :=
        map get_children
            (List.filter (λ x, is_parent x && truthy (re_match x parent)) section) in
      match section with
      | [s] => section_walk s rest
      | _ :: _ :: _ => logger ERROR MultipleParents;; mret []
      | [] => logger ERROR NoParents;; mret []
      end
  end.

Definition get_section_by_parents self (parents : list Regex)
  : Py (list BaseConfigLine) :=
  section_walk (lines self) parents.

(** Reading [self.minimal_results]. *)
Definition get_minimal_results self : Py bool :=
  match minimal_results self with
  | Some b => mret b
  | None => raise (AttributeError "minimal_results")
  end.

(** [entry.update(v)]: a dictionary is merged in, its values winning; an
    empty string has no items; anything else is rejected. *)
Definition dict_update (entry : dict) (v : Value) : Py dict :=
  match v with
  | VDict d => mret (d ∪ entry)
  | VStr EmptyString => mret entry
  | VStr _ => raise ValueError
  | VNone | VMatch _ => raise TypeError
  end.

(** [{k: None for k in pattern.groupindex.keys()}]; only a compiled
    pattern has a [groupindex]. *)
Definition none_for_groups (pattern : Regex) : Py dict :=
  match pattern with
  | RPat p => mret ((λ _, None) <$> groupindex p)
  | _ => raise (AttributeError "groupindex")
  end.

(** The branch taken for a pattern that found nothing. *)
Definition no_match_policy self (entry : dict) (pattern : Regex) : Py dict :=
  minimal ← get_minimal_results self;
  if (minimal : bool) then mret entry
  else d ← none_for_groups pattern; dict_update entry (VDict d).

(** One iteration of the loop of [match_to_dict]. *)
Definition match_step self line (entry : dict) (pattern : Regex) : Py dict :=
  let match_result := re_search line pattern ALL in
  match match_result with
  | VNone => no_match_policy self entry pattern
  | _ => dict_update entry match_result
  end.

Definition match_to_dict self line (patterns : list Regex) : Py dict :=
  for_each (match_step self line) ∅ patterns.

(** What [match_to_dict] does with an element of a list of candidates:
    only a line has [re_search]. *)
Definition match_obj_to_dict self (o : Obj) (patterns : list Regex) : Py dict :=
  match o with
  | OLine l => match_to_dict self l patterns
  | OValue _ => raise (AttributeError "re_search")
  end.

Definition property_autoparse self (candidate_pattern : Regex)
    (patterns : list Regex) : Py (option (list dict)) :=
  candidates ← find_objects self candidate_pattern MULTILINE GNone;
  if (length candidates =? 0)%nat then mret None
  else
    properties ← for_each
      (λ properties candidate,
         entry ← match_obj_to_dict self candidate patterns;
         mret (properties ++ [entry]))
      [] candidates;
    mret (Some properties).

(** One iteration of the inner loop of [section_property_autoparse]. *)
Definition child_step self (candidate : BaseConfigLine) (entry : dict)
    (pattern : Regex) : Py dict :=
  let updates := re_search_children candidate pattern ALL in
  match updates with
  | [u] => dict_update entry u
  | [] => no_match_policy self entry pattern
  | _ :: _ :: _ => logger WARNING (MultipleUpdates pattern candidate);; mret entry
  end.

(** The body of the outer loop: the dictionary of one candidate. *)
Definition section_entry self (parent : Parent) (candidate : Obj)
    (patterns : list Regex) : Py dict :=
  entry ← match parent with
          | ParentRegex r =>
              d ← match_obj_to_dict self candidate [r]; dict_update ∅ (VDict d)
          | ParentLine _ => mret ∅
          end;
  match candidate with
  | OLine candidate => for_each (child_step self candidate) entry patterns
  | OValue _ =>
      match patterns with
      | [] => mret entry
      | _ :: _ => raise (AttributeError "re_search_children")
      end
  end.

Definition section_property_autoparse self (parent : Parent)
    (patterns : list Regex) (return_with_line : bool)
  : Py (option (list Entry)) :=
  candidates ← match parent with
               | ParentLine l => mret [OLine l]
               | ParentRegex RNone => raise (UnboundLocalError "candidates")
               | ParentRegex r => find_objects self r MULTILINE GNone
               end;
  if (length candidates =? 0)%nat then mret None
  else
    entries ← for_each
      (λ entries candidate,
         entry ← section_entry self parent candidate patterns;
         mret (entries ++ [if return_with_line
                           then EntryWithLine candidate entry
                           else EntryDict entry]))
      [] candidates;
    mret (Some entries).

End Parser.
End Parser.

(** ** A small configuration and some compiled patterns *)

Module Sample.

(** The compiled pattern [^<pre>(?P<name>.*$)] on a one-line text: it
    matches a text that starts with [pre] and captures the rest. *)
Definition match_prefix (pre text : string) : option Match :=
  if String.prefix pre text
  then Some [Some text;
             Some (substring (String.length pre)
                             (String.length text - String.length pre) text)]
  else None.

Definition prefix_pattern (pre name : string) : Pattern :=
  {| p_search := match_prefix pre;
     p_match := match_prefix pre;
     p_groups := 1;
     groupindex := {[ name := 1%nat ]} |}.

(** [^interface(?P<name>.*$)] *)
Definition interface_pattern : Pattern := prefix_pattern "interface" "name".
(** [^inter(?P<name>.*$)] *)
Definition inter_pattern : Pattern := prefix_pattern "inter" "name".
(** [^ ip address (?P<address>.*$)] *)
Definition ip_pattern : Pattern := prefix_pattern " ip address " "address".
(** [^ (?P<line>.*$)] *)
Definition indented_pattern : Pattern := prefix_pattern " " "line".
(** [^interface Ethernet0/0(?P<rest>.*$)] *)
Definition ethernet0_pattern : Pattern :=
  prefix_pattern "interface Ethernet0/0" "rest".
(** [^hostname (?P<hostname>.*$)] *)
Definition hostname_pattern : Pattern := prefix_pattern "hostname " "hostname".

(** An engine that compiles the texts of the patterns above and rejects
    every other text, among them the unbalanced ["("]. *)
Definition compile_text (s : string) (flags : Z) : option Pattern :=
  if String.eqb s "^interface(?P<name>.*$)" then Some interface_pattern
  else if String.eqb s "^hostname (?P<hostname>.*$)" then Some hostname_pattern
  else None.

Definition description : BaseConfigLine :=
  ConfigLine 1 " description Test" [].
Definition ip_address : BaseConfigLine :=
  ConfigLine 2 " ip address 10.0.0.1 255.255.255.0" [].
Definition ethernet0 : BaseConfigLine :=
  ConfigLine 0 "interface Ethernet0/0" [description; ip_address].
Definition shutdown : BaseConfigLine :=
  ConfigLine 4 " shutdown" [].
Definition ethernet1 : BaseConfigLine :=
  ConfigLine 3 "interface Ethernet0/1" [shutdown].
(** A line that is the bare keyword. *)
Definition bare : BaseConfigLine :=
  ConfigLine 5 "interface" [].

Definition config_text : list string :=
  ["interface Ethernet0/0"; " description Test";
   " ip address 10.0.0.1 255.255.255.0"; "interface Ethernet0/1";
   " shutdown"; "interface"].

(** A parser of a subclass that sets only [INTERFACE_LINE_CLASS], as
    [__init__] and [parse] leave it on [config_text]. *)
Definition parser : BaseConfigParser :=
  {| verbosity := 4;
     _config := ConfigLines config_text;
     lines := [ethernet0; description; ip_address; ethernet1; shutdown; bare];
     config_lines_str := Some config_text;
     minimal_results := None |}.

(** The same parser once a caller has assigned [minimal_results]. *)
Definition with_minimal_results (b : bool) : BaseConfigParser :=
  {| verbosity := verbosity parser;
     _config := _config parser;
     lines := lines parser;
     config_lines_str := config_lines_str parser;
     minimal_results := Some b |}.

End Sample.

(** ** Notions the statements use *)

Section Notions.
Context `{ReEngine}.
Import Line Parser.

(** The pattern [find_objects] searches with: a compiled pattern is used
    as it is, anything else goes through [_compile_regex]. *)
Definition searched_pattern (regex : Regex) (flags : Z) : option Pattern :=
  match regex with
  | RPat p => Some p
  | RStr s => re_compile s flags
  | RNone => None
  end.

(** The text of line [l] matches [regex]. *)
Definition matches (regex : Regex) (flags : Z) (l : BaseConfigLine) : bool :=
  match searched_pattern regex flags with
  | Some p => bool_decide (is_Some (p_search p (text l)))
  | None => false
  end.

(** [regex] matches the text of no line of the parser; so it is when
    [regex] does not compile. *)
Definition matches_no_line (self : BaseConfigParser) (regex : Regex) (flags : Z)
  : bool :=
  forallb (λ l, negb (matches regex flags l)) (lines self).

(** The value of [group] captured on line [l], [None] when the line does
    not match. *)
Definition captured (regex : Regex) (flags : Z) (group : Group)
    (l : BaseConfigLine) : Value :=
  re_search l (as_regex (searched_pattern regex flags)) group.

(** The direct children of [l] that [pattern] matches. *)
Definition matching_children (l : BaseConfigLine) (pattern : Regex)
  : list BaseConfigLine :=
  List.filter (λ c, truthy (re_search c pattern GNone)) (get_children l).

(** The parent candidates [section_property_autoparse] goes through: the
    line itself, or the lines that [find_objects] returns for the
    pattern. *)
Definition parent_candidates (self : BaseConfigParser) (parent : Parent)
  : list BaseConfigLine :=
  match parent with
  | ParentLine l => [l]
  | ParentRegex r =>
      List.filter (λ l, truthy (captured r MULTILINE GNone l)) (lines self)
  end.

(** The candidates that have children and match [parent]. *)
Definition matching_parents (section : list BaseConfigLine) (parent : Regex)
  : list BaseConfigLine :=
  List.filter (λ x, is_parent x && truthy (re_match x parent)) section.

(** What reading [self.minimal_results] raises when no one assigned it. *)
Definition unset : Exn := AttributeError "minimal_results".

(** A method body that returns, or else raises [e]. *)
Definition returns_or_raises {A} (e : Exn) (m : Py A) : Prop :=
  ∀ log, (∃ a log', m log = (Ok a, log')) ∨ (∃ log', m log = (Raise e, log')).

(** A method body whose result does not depend on the log it extends. *)
Definition appends {A} (m : Py A) : Prop :=
  ∃ r w, ∀ log, m log = (r, log ++ w).

End Notions.

(** The candidate set the walk of [get_section_by_parents] holds after the
    patterns [parents], when each of them singled out exactly one parent;
    [None] when one of them did not. *)
Fixpoint candidates_after `{ReEngine} (section : list BaseConfigLine)
    (parents : list Regex) : option (list BaseConfigLine) :=
  match parents with
  | [] => Some section
  | parent :: rest =>
      match matching_parents section parent with
      | [x] => candidates_after (Line.get_children x) rest
      | _ => None
      end
  end.

(** ** Notions for the dictionaries of the extractor *)

Section Dictionaries.
Context `{ReEngine}.
Import Line Parser.

(** The dictionary a pattern that found nothing contributes: nothing under
    minimal results; otherwise [None] for each named group of a compiled
    pattern, and no dictionary at all for anything else, which has no
    [groupindex]. *)
Definition no_match_dict (minimal : bool) (pattern : Regex) : option dict :=
  if minimal then Some ∅
  else match pattern with
       | RPat c => Some ((λ _, None) <$> groupindex c)
       | _ => None
       end.

(** The dictionary one pattern contributes on [line]. *)
Definition step_dict (minimal : bool) (line : BaseConfigLine) (pattern : Regex)
  : option dict :=
  match resolve pattern with
  | Some c =>
      match p_search c (text line) with
      | Some m => Some (groupdict c m)
      | None => no_match_dict minimal pattern
      end
  | None => no_match_dict minimal pattern
  end.

(** The dictionaries of the patterns merged in list order into [entry]. *)
Fixpoint merged (minimal : bool) (line : BaseConfigLine) (patterns : list Regex)
    (entry : dict) : option dict :=
  match patterns with
  | [] => Some entry
  | pattern :: rest =>
      match step_dict minimal line pattern with
      | Some d => merged minimal line rest (d ∪ entry)
      | None => None
      end
  end.

(** The named groups of a pattern that matches [line]; none when it does
    not match. *)
Definition matched_names (line : BaseConfigLine) (pattern : Regex) : gset string :=
  match resolve pattern with
  | Some c =>
      if bool_decide (is_Some (p_search c (text line)))
      then dom (groupindex c) else ∅
  | None => ∅
  end.

(** The named groups of a compiled pattern. *)
Definition group_names (pattern : Regex) : gset string :=
  match pattern with
  | RPat c => dom (groupindex c)
  | _ => ∅
  end.

Definition is_compiled (pattern : Regex) : bool :=
  match pattern with RPat _ => true | _ => false end.

End Dictionaries.


(** The body of a loop that runs [g] on each element and appends what it
    returns, wrapped by [w]. *)
Definition collect_step {A B C} (g : A → Py B) (w : A → B → C)
    (acc : list C) (x : A) : Py (list C) :=
  e ← g x; mret (acc ++ [w x e]).

(** ** Methods that assign attributes *)

(** What these methods raise: the exceptions of the query methods, and
    those of name lookup, indexing and [re.compile]. *)
Inductive Error :=
  | NameError (name : string)
  | IndexError
  | ReError (pattern : string)
  | Builtin (e : Exn).

(** The messages these methods log. *)
Inductive SetupMsg :=
  | CleaningConfig
      (* Cleaning config lines *)
  | FoundFirstLine (line : string)
      (* Found first config line: '{}' *)
  | FoundLastLine (line : string)
      (* Found last config line: '{}' *)
  | NoValidConfig
      (* No valid config found! *)
  | LoadingLines (n : nat)
      (* Loading {} config lines. *)
  | PathDoesNotExist (filepath : string)
      (* Path '{}' does not exist. *)
  | PathIsNotAFile (filepath : string)
      (* Path '{}' is not a file. *)
  | PathIsExistingFile (filepath : string)
      (* Path '{}' is existing file. *)
  | CreatedObjects (n : nat).
      (* Created {} ConfigLine objects in {} ms. *)

Abbreviation SetupLog := (list (Level * SetupMsg)).

Inductive Outcome (A : Type) :=
  | Returned (a : A)
  | Raised (e : Error).
Arguments Returned {A} a.
Arguments Raised {A} e.

(** A method body that may assign attributes of [self]: it takes the
    parser and the log and gives them back with what it returns or
    raises. *)
Definition Method (A : Type) : Type :=
  BaseConfigParser → SetupLog → Outcome A * BaseConfigParser * SetupLog.

Global Instance Method_ret : MRet Method := λ A a self log, (Returned a, self, log).
Global Instance Method_bind : MBind Method := λ A B f m self log,
  match m self log with
  | (Returned a, self', log') => f a self' log'
  | (Raised e, self', log') => (Raised e, self', log')
  end.

Definition throw {A} (e : Error) : Method A := λ self log, (Raised e, self, log).
Definition log_setup (lvl : Level) (msg : SetupMsg) : Method unit :=
  λ self log, (Returned tt, self, log ++ [(lvl, msg)]).

(** Reading [self.config_lines_str] and [self.lines]. *)
Definition get_config_lines_str : Method (list string) := λ self log,
  match config_lines_str self with
  | Some l => (Returned l, self, log)
  | None => (Raised (Builtin (AttributeError "config_lines_str")), self, log)
  end.
Definition get_lines : Method (list BaseConfigLine) := λ self log,
  (Returned (lines self), self, log).

(** The parser with [config_lines_str], or [lines], assigned. *)
Definition with_config_lines_str (self : BaseConfigParser) (l : list string)
  : BaseConfigParser :=
  {| verbosity := verbosity self; _config := _config self; lines := lines self;
     config_lines_str := Some l; minimal_results := minimal_results self |}.
Definition with_lines (self : BaseConfigParser) (l : list BaseConfigLine)
  : BaseConfigParser :=
  {| verbosity := verbosity self; _config := _config self; lines := l;
     config_lines_str := config_lines_str self;
     minimal_results := minimal_results self |}.

(** [self.config_lines_str = l] and [self.lines.append(line)]. *)
Definition set_config_lines_str (l : list string) : Method unit := λ self log,
  (Returned tt, with_config_lines_str self l, log).
Definition append_line (line : BaseConfigLine) : Method unit := λ self log,
  (Returned tt, with_lines self (lines self ++ [line]), log).

(** A [for] loop over a method body. *)
Fixpoint for_lines {B} (f : B → Method unit) (l : list B) : Method unit :=
  match l with
  | [] => mret tt
  | x :: r => f x;; for_lines f r
  end.

(** [l[i]] *)
Definition index {A} (l : list A) (i : nat) : Method A :=
  match l !! i with
  | Some x => mret x
  | None => throw IndexError
  end.

(** [l[first:last + 1]] *)
Definition slice {A} (l : list A) (first last : nat) : list A :=
  take (S last - first) (drop first l).

(** Truthiness of [first] and [last], which hold [None] or an index:
    [None] and 0 are falsy. *)
Definition index_truthy (i : option nat) : bool :=
  match i with
  | Some (S _) => true
  | _ => false
  end.

Module Setup.
Section Setup.
Context `{ReEngine}.

(** [re.compile(pattern=regex, flags=flags)], not caught. *)
Definition compile (regex : string) (flags : Z) : Method Pattern :=
  match re_compile regex flags with
  | Some p => mret p
  | None => throw (ReError regex)
  end.

(** The name [all_lines]: it is bound nowhere, neither in the method nor
    in the module, so that evaluating it raises [NameError]. *)
Definition all_lines : Method (list string) := throw (NameError "all_lines").

(** The loop of [_get_clean_config] over the indices left, with [break]. *)
Fixpoint clean_loop (first_regex last_regex : Pattern) (indices : list nat)
    (first last : option nat) : Method (option nat * option nat) :=
  match indices with
  | [] => mret (first, last)
  | i :: rest =>
      first ←
        (if negb (index_truthy first) then
           lines ← all_lines;
           line ← index lines i;
           match p_match first_regex line with
           | Some _ =>
               lines ← all_lines;
               line ← index lines i;
               log_setup DEBUG (FoundFirstLine line);;
               mret (Some i)
           | None => mret first
           end
         else mret first);
      if negb (index_truthy last) then
        lines ← all_lines;
        line ← index lines i;
        match p_match last_regex line with
        | Some _ =>
            lines ← all_lines;
            line ← index lines i;
            log_setup DEBUG (FoundLastLine line);;
            mret (first, Some i)
        | None => clean_loop first_regex last_regex rest first last
        end
      else clean_loop first_regex last_regex rest first last
  end.

Definition _get_clean_config (first_line_regex last_line_regex : string)
  : Method unit :=
  log_setup DEBUG CleaningConfig;;
  first_regex ← compile first_line_regex MULTILINE;
  last_regex ← compile last_line_regex MULTILINE;
  config ← get_config_lines_str;
  '(first, last) ← clean_loop first_regex last_regex
                      (seq 0 (length config)) None None;
  if negb (index_truthy first) || negb (index_truthy last) then
    set_config_lines_str [];;
    log_setup ERROR NoValidConfig
  else
    lines ← all_lines;
    set_config_lines_str
      (slice lines (default 0%nat first) (default 0%nat last));;
    config ← get_config_lines_str;
    log_setup INFO (LoadingLines (length config)).

End Setup.
End Setup.

(** ** Loading, and building the line objects *)

(** What the parser uses of [pathlib]: [Path.resolve], [Path.exists],
    [Path.is_file] and [Path.is_absolute], on paths given as text. *)
Class FileSystem := {
  resolve_path : string → string;
  path_exists : string → bool;
  is_file : string → bool;
  is_absolute : string → bool
}.

(** What the parser uses of the modules that are missing from the sources.
    [load_text] (net_parser/utils) turns the [config] argument into lines,
    or raises, and may log.  [line_children] stands for the tree the line
    objects span: the children of the line numbered [number] in a
    configuration.  [interface_line_class] tells whether the class of the
    parser defines [INTERFACE_LINE_CLASS]: [BaseConfigParser] itself does
    not, its subclasses may. *)
Class Environment := {
  load_text : Config → Outcome (list string) * SetupLog;
  line_children : list string → nat → list BaseConfigLine;
  interface_line_class : bool
}.

(** The pattern [_create_cfg_line_objects] tests each line with. *)
Definition interface_regex : string := "^interface\s\S+".

Module Build.
Section Build.
Context `{ReEngine} `{FileSystem} `{Environment}.

(** [_check_path]: nothing of [self] is read but the logger. *)
Definition _check_path (filepath : string) : Method (option string) :=
  let path := resolve_path filepath in
  if negb (path_exists path) then
    log_setup ERROR (PathDoesNotExist filepath);;
    mret None
  else
    (if negb (is_file path) then log_setup ERROR (PathIsNotAFile filepath)
     else mret tt);;
    if negb (is_absolute path) then
      let path := resolve_path path in
      log_setup DEBUG (PathIsExistingFile filepath);;
      mret (Some path)
    else
      log_setup DEBUG (PathIsExistingFile filepath);;
      mret (Some path).

(** [load_config] *)
Definition load_config : Method (list string) := λ self log,
  let '(raw_lines, entries) := load_text (_config self) in
  (raw_lines, self, log ++ entries).

(** The object a line class builds for the line [number] of the
    configuration [config]; [BaseConfigLine] and the interface line class
    differ in what the model does not carry. *)
Definition line_object (config : list string) (number : nat) (text : string)
  : BaseConfigLine :=
  ConfigLine number text (line_children config number).

(** The object built for a numbered line, as [enumerate] gives it. *)
Definition object_of (config : list string) (nt : nat * string) : BaseConfigLine :=
  line_object config nt.1 nt.2.

(** [self.INTERFACE_LINE_CLASS] *)
Definition get_INTERFACE_LINE_CLASS
  : Method (list string → nat → string → BaseConfigLine) :=
  if interface_line_class then mret line_object
  else throw (Builtin (AttributeError "INTERFACE_LINE_CLASS")).

(** [re.match(pattern=interface_regex, string=text, flags=re.MULTILINE)] *)
Definition match_interface (text : string) : Method bool :=
  pattern ← Setup.compile interface_regex MULTILINE;
  mret (bool_decide (is_Some (p_match pattern text))).

(** One iteration of the first loop of [_create_cfg_line_objects]. *)
Definition create_line (config : list string) (nt : nat * string) : Method unit :=
  let '(number, text) := nt in
  is_interface ← match_interface text;
  if (is_interface : bool) then
    cls ← get_INTERFACE_LINE_CLASS;
    append_line (cls config number text)
  else append_line (line_object config number text).

(** [_create_cfg_line_objects].  The second loop assigns [line.type], which
    the model of a line does not carry. *)
Definition _create_cfg_line_objects : Method unit :=
  config ← get_config_lines_str;
  for_lines (create_line config) (imap pair config);;
  lines ← get_lines;
  log_setup DEBUG (CreatedObjects (length lines)).

(** [parse] *)
Definition parse : Method unit :=
  raw_config_lines ← load_config;
  set_config_lines_str raw_config_lines;;
  _create_cfg_line_objects.

End Build.
End Build.

(** The lines before the first one that [pattern] matches at its start. *)
Fixpoint plain_prefix (pattern : Pattern) (l : list (nat * string))
  : list (nat * string) :=
  match l with
  | [] => []
  | nt :: r =>
      if bool_decide (is_Some (p_match pattern nt.2)) then []
      else nt :: plain_prefix pattern r
  end.

Definition has_interface (pattern : Pattern) (l : list (nat * string)) : bool :=
  existsb (λ nt, bool_decide (is_Some (p_match pattern nt.2))) l.

Module SampleSetup.

(** A file system with the directory [/etc] and the file [/etc/config]. *)
Definition files : FileSystem :=
  {| resolve_path := λ p, p;
     path_exists := λ p, String.eqb p "/etc" || String.eqb p "/etc/config";
     is_file := λ p, String.eqb p "/etc/config";
     is_absolute := λ p, String.prefix "/" p |}.

(** [^interface\s\S+] on a one-line text: the keyword, a whitespace and a
    character that is not whitespace. *)
Definition match_interface_line (text : string) : option Match :=
  if String.prefix "interface" text then
    match substring 9 (String.length text - 9) text with
    | String c (String c' _) =>
        if Str.isspace c && negb (Str.isspace c') then Some [Some text] else None
    | _ => None
    end
  else None.

Definition interface_line_pattern : Pattern :=
  {| p_search := match_interface_line;
     p_match := match_interface_line;
     p_groups := 0;
     groupindex := ∅ |}.

Definition compile_text (s : string) (flags : Z) : option Pattern :=
  if String.eqb s interface_regex then Some interface_line_pattern
  else Sample.compile_text s flags.

Definition plain_text : list string := ["hostname A"; "end"].

(** The configuration is given as lines; no tree is built; the class is
    [BaseConfigParser] itself. *)
Definition base_class : Environment :=
  {| load_text := λ config,
       match config with
       | ConfigLines l => (Returned l, [])
       | _ => (Raised (Builtin TypeError), [])
       end;
     line_children := λ _ _, [];
     interface_line_class := false |}.

Definition fresh (l : list string) : BaseConfigParser := __init__ (ConfigLines l) 4.

End SampleSetup.

(** Whether a result is a return, not a raise. *)
Definition returned {A} (r : Result A) : bool :=
  match r with Ok _ => true | Raise _ => false end.

(** * Theorems *)

(** ** The indentation normaliser *)

(** Indentation of three and of one space is rewritten to one level and
    to none; the text is stripped. *)
Example fix_indents_ex :
  fix_indents ["interface Ethernet0/0"; "   description Test  "; "   ip address"; " !"; "end"]
  = ["interface Ethernet0/0"; " description Test"; " ip address"; "!"; "end"].
Proof. vm_compute. reflexivity. Qed.

Section FixIndents.

Implicit Types (indent_map fixed : list Z) (i n : nat).

Lemma fix_step_snoc indent_map fixed i :
  fix_step indent_map fixed i
  = fixed ++ [next_depth indent_map (List.last fixed 0) i].
Proof.
  unfold fix_step, next_depth.
  destruct (i =? 0)%nat; [done|].
  destruct (indent_map !!! i =? 0); [done|].
  destruct (Z.eqb_spec (indent_map !!! i) (indent_map !!! (i - 1)%nat)); [done|].
  destruct (Z.gtb_spec (indent_map !!! i) (indent_map !!! (i - 1)%nat)); [done|].
  destruct (Z.ltb_spec (indent_map !!! i) (indent_map !!! (i - 1)%nat)); [done|lia].
Qed.

Lemma last_lookup_total fixed n :
  length fixed = S n → List.last fixed 0 = fixed !!! n.
Proof.
  destruct fixed as [|x l _] using rev_ind; [done|].
  rewrite length_app; simpl; intros Hlen.
  rewrite List.last_last, lookup_total_app_r by lia.
  by replace (n - length l)%nat with 0%nat by lia.
Qed.

(** Loop invariant of the first loop, after [n] iterations. *)
Lemma fixed_prefix_inv indent_map n :
  let fixed := foldl (fix_step indent_map) [] (seq 0 n) in
  length fixed = n ∧
  ∀ i, (i < n)%nat →
       fixed !!! i = next_depth indent_map (fixed !!! (i - 1)%nat) i.
Proof.
  cbv zeta. induction n as [|n [IHlen IH]].
  { split; [done|intros; lia]. }
  rewrite seq_S, foldl_snoc, fix_step_snoc. cbn [Nat.add].
  set (f := foldl (fix_step indent_map) [] (seq 0 n)) in *.
  split; [rewrite length_app; simpl; lia|].
  intros i Hi. destruct (decide (i = n)) as [->|Hne].
  - rewrite lookup_total_app_r, IHlen, Nat.sub_diag by lia. simpl.
    destruct n as [|n]; [done|].
    rewrite (last_lookup_total f n) by done.
    replace (S n - 1)%nat with n by lia.
    by rewrite lookup_total_app_l by lia.
  - rewrite lookup_total_app_l by lia. rewrite IH by lia.
    destruct i as [|i]; [done|].
    replace (S i - 1)%nat with i by lia.
    by rewrite (lookup_total_app_l f) by lia.
Qed.

Lemma fixed_indent_map_length indent_map :
  length (fixed_indent_map indent_map) = length indent_map.
Proof. apply fixed_prefix_inv. Qed.

(** The recurrence every entry of the fixed indent map satisfies. *)
Lemma fixed_indent_map_rule indent_map i :
  (i < length indent_map)%nat →
  fixed_indent_map indent_map !!! i
  = next_depth indent_map (fixed_indent_map indent_map !!! (i - 1)%nat) i.
Proof. apply fixed_prefix_inv. Qed.

(** Loop invariant of the second loop: the lines below [length fixed]
    are rewritten, the others untouched. *)
Lemma rewrite_lines_inv (lines : list string) fixed :
  let r := foldl rewrite_line lines (imap pair fixed) in
  length r = length lines ∧
  ∀ i, r !! i = if decide (i < length fixed)%nat
                then rewritten (fixed !!! i) <$> lines !! i
                else lines !! i.
Proof.
  cbv zeta. induction fixed as [|d fixed [IHlen IH]] using rev_ind.
  { split; [done|]. intros i. by destruct (decide _); [simpl in *; lia|]. }
  rewrite imap_app, foldl_app. simpl. rewrite Nat.add_0_r.
  set (r := foldl rewrite_line lines (imap pair fixed)) in *.
  split; [by rewrite length_insert|].
  intros i. rewrite length_app. simpl.
  assert (r !!! length fixed = lines !!! length fixed) as ->.
  { rewrite !list_lookup_total_alt, IH. by destruct (decide _); [lia|]. }
  destruct (decide (i = length fixed)) as [->|Hne].
  - rewrite decide_True by lia. rewrite lookup_total_app_r, Nat.sub_diag by lia.
    simpl. destruct (decide (length fixed < length lines)%nat) as [Hlt|Hge].
    + rewrite list_lookup_insert_eq by lia.
      destruct (lookup_lt_is_Some_2 lines _ Hlt) as [x Hx].
      by rewrite Hx, (list_lookup_total_correct _ _ _ Hx).
    + rewrite list_insert_ge by lia. rewrite IH, decide_False by lia.
      by rewrite lookup_ge_None_2 by lia.
  - rewrite list_lookup_insert_ne by done. rewrite IH.
    destruct (decide (i < length fixed)%nat).
    + rewrite decide_True by lia. by rewrite lookup_total_app_l by lia.
    + by rewrite decide_False by lia.
Qed.

Lemma fix_indents_length (lines : list string) :
  length (fix_indents lines) = length lines.
Proof. apply rewrite_lines_inv. Qed.

Lemma fix_indents_lookup (lines : list string) i :
  fix_indents lines !! i
  = rewritten (fixed_indent_map (map _get_indent lines) !!! i) <$> lines !! i.
Proof.
  unfold fix_indents.
  destruct (rewrite_lines_inv lines (fixed_indent_map (map _get_indent lines)))
    as [_ ->].
  rewrite fixed_indent_map_length, length_map.
  destruct (decide _) as [|Hge]; [done|].
  by rewrite lookup_ge_None_2 by lia.
Qed.

(** *** The indentation of a rewritten line *)

Lemma isspace_space c : Ascii.eqb c " "%char = true → Str.isspace c = true.
Proof. intros ->%Ascii.eqb_eq. reflexivity. Qed.

Lemma lstrip_head s :
  match Str.lstrip s with
  | String c _ => Str.isspace c = false
  | EmptyString => True
  end.
Proof.
  induction s as [|c s IH]; simpl; [done|].
  by destruct (Str.isspace c) eqn:Hc; [|simpl].
Qed.

Lemma rstrip_head s :
  match s with
  | String c _ => Str.isspace c = false → ∃ r, Str.rstrip s = String c r
  | EmptyString => True
  end.
Proof.
  destruct s as [|c s]; [done|]. intros Hc. simpl.
  destruct (Str.rstrip s); rewrite ?Hc; eauto.
Qed.

Lemma strip_no_leading_space s : starts_with_space (Str.strip s) = false.
Proof.
  unfold Str.strip. pose proof (lstrip_head s) as Hl.
  pose proof (rstrip_head (Str.lstrip s)) as Hr.
  destruct (Str.lstrip s) as [|c t]; [done|].
  destruct (Hr Hl) as [r ->]. simpl.
  destruct (Ascii.eqb c " ") eqn:Hc; [|done].
  apply isspace_space in Hc. congruence.
Qed.

Lemma lstrip_space_id s :
  starts_with_space s = false → Str.lstrip_space s = s.
Proof. destruct s as [|c s]; simpl; [done|]. by intros ->. Qed.

Lemma lstrip_space_spaces k s :
  Str.lstrip_space (string_of_list_ascii (replicate k " "%char) +:+ s)
  = Str.lstrip_space s.
Proof. induction k as [|k IH]; simpl; done. Qed.

Lemma len_app s t : Str.len (s +:+ t) = Str.len s + Str.len t.
Proof.
  unfold Str.len. rewrite <- Nat2Z.inj_add. f_equal.
  induction s as [|c s IH]; simpl; [done|]. by rewrite IH.
Qed.

Lemma len_spaces d : Str.len (Str.spaces d) = Z.max 0 d.
Proof.
  unfold Str.len, Str.spaces.
  assert (∀ k, String.length (string_of_list_ascii (replicate k " "%char)) = k)
    as -> by (induction k; simpl; congruence).
  lia.
Qed.

(** A rewritten line is indented by [max 0 d] spaces: Python's [" " * d]
    is empty for a negative [d]. *)
Lemma get_indent_rewritten d line :
  _get_indent (rewritten d line) = Z.max 0 d.
Proof.
  unfold _get_indent, rewritten.
  unfold Str.spaces at 2. rewrite lstrip_space_spaces.
  rewrite lstrip_space_id by apply strip_no_leading_space.
  rewrite len_app, len_spaces. lia.
Qed.

(** *** Depths of the lines of a configuration *)

Lemma fixed_depth_rule (lines : list string) i :
  (i < length lines)%nat →
  fixed_depth lines i
  = next_depth (map _get_indent lines) (fixed_depth lines (i - 1)%nat) i.
Proof.
  intros Hi. unfold fixed_depth. apply fixed_indent_map_rule.
  by rewrite length_map.
Qed.

Lemma final_depth_max (lines : list string) i :
  (i < length lines)%nat →
  final_depth lines i = Z.max 0 (fixed_depth lines i).
Proof.
  intros Hi. unfold final_depth, fixed_depth.
  destruct (lookup_lt_is_Some_2 lines _ Hi) as [x Hx].
  rewrite list_lookup_total_alt, list_lookup_fmap, fix_indents_lookup, Hx.
  simpl. apply get_indent_rewritten.
Qed.

Lemma fixed_depth_first (lines : list string) :
  (0 < length lines)%nat → fixed_depth lines 0 = 0.
Proof. intros Hlen. by rewrite fixed_depth_rule. Qed.

Lemma fixed_depth_bounds (lines : list string) i :
  (i < length lines)%nat →
  - Z.of_nat i <= fixed_depth lines i <= Z.of_nat i.
Proof.
  induction i as [|i IH]; intros Hi.
  { rewrite fixed_depth_first by done. lia. }
  rewrite fixed_depth_rule by done. unfold next_depth.
  replace (S i - 1)%nat with i by lia. specialize (IH ltac:(lia)).
  repeat match goal with |- context [if ?b then _ else _] => destruct b end; lia.
Qed.

End FixIndents.

(** C1, as amended: the first line has depth 0; a later line whose raw
    indent is 0 is reset to depth 0, however deep the line before it was;
    a later line whose raw indent is not 0 is at most one level away from
    the line before it.  This holds of the entries of the fixed indent map
    and of the indentation of the rewritten lines. *)
Theorem fix_indents_depth_steps (lines : list string) (i : nat) :
  (i < length lines)%nat →
  fixed_depth lines 0 = 0 ∧ final_depth lines 0 = 0 ∧
  (i = 0%nat
   ∨ (raw_indent lines i = 0
      ∧ fixed_depth lines i = 0 ∧ final_depth lines i = 0)
   ∨ (raw_indent lines i ≠ 0
      ∧ -1 <= fixed_depth lines i - fixed_depth lines (i - 1) <= 1
      ∧ -1 <= final_depth lines i - final_depth lines (i - 1) <= 1)).
Proof.
  intros Hi. split; [apply fixed_depth_first; lia|].
  split; [rewrite final_depth_max, fixed_depth_first by lia; lia|].
  destruct i as [|i]; [by left|right].
  rewrite !final_depth_max by lia.
  rewrite (fixed_depth_rule lines (S i)) by done.
  unfold next_depth, raw_indent. simpl Nat.eqb. cbv iota.
  destruct (Z.eqb_spec (map _get_indent lines !!! S i) 0); [left; lia|right].
  split; [done|].
  repeat match goal with |- context [if ?b then _ else _] => destruct b end; lia.
Qed.

Lemma fix_indents_depth_steps_witness :
  let lines := ["a"; " b"; "   c"; " d"; "e"] in
  fixed_depth lines 0 = 0 ∧ final_depth lines 0 = 0 ∧
  (3%nat = 0%nat
   ∨ (raw_indent lines 3 = 0
      ∧ fixed_depth lines 3 = 0 ∧ final_depth lines 3 = 0)
   ∨ (raw_indent lines 3 ≠ 0
      ∧ -1 <= fixed_depth lines 3 - fixed_depth lines (3 - 1) <= 1
      ∧ -1 <= final_depth lines 3 - final_depth lines (3 - 1) <= 1)).
Proof.
  apply (fix_indents_depth_steps ["a"; " b"; "   c"; " d"; "e"] 3).
  simpl. lia.
Defined.

(** C1 as stated fails: a line with raw indent 0 that follows a line at
    depth 2 drops two levels at once. *)
Lemma fix_indents_unit_steps_counterexample :
  let lines := ["a"; " b"; "  c"; "d"] in
  fixed_indent_map (map _get_indent lines) = [0; 1; 2; 0]
  ∧ map _get_indent (fix_indents lines) = [0; 1; 2; 0]
  ∧ ¬ unit_steps (fixed_indent_map (map _get_indent lines))
  ∧ ¬ unit_steps (map _get_indent (fix_indents lines)).
Proof.
  cbv zeta.
  assert (fixed_indent_map (map _get_indent ["a"; " b"; "  c"; "d"]) = [0; 1; 2; 0])
    as -> by (vm_compute; reflexivity).
  assert (map _get_indent (fix_indents ["a"; " b"; "  c"; "d"]) = [0; 1; 2; 0])
    as -> by (vm_compute; reflexivity).
  repeat split; intros H; specialize (H 2%nat 2 0 eq_refl eq_refl); lia.
Qed.

(** C2, as amended: the first line gets depth 0; a later line whose raw
    indent is 0 gets depth 0; any other line gets the depth of the line
    before it when the raw indents are equal, one more when its raw indent
    is greater, one less when it is smaller. *)
Theorem fix_indents_depth_cases (lines : list string) (i : nat) :
  (i < length lines)%nat →
  let d := fixed_depth lines i in
  let prev := fixed_depth lines (i - 1) in
  let r := raw_indent lines i in
  let rprev := raw_indent lines (i - 1) in
  (i = 0%nat ∧ d = 0)
  ∨ (i ≠ 0%nat ∧ r = 0 ∧ d = 0)
  ∨ (i ≠ 0%nat ∧ r ≠ 0 ∧ r = rprev ∧ d = prev)
  ∨ (i ≠ 0%nat ∧ r ≠ 0 ∧ r > rprev ∧ d = prev + 1)
  ∨ (i ≠ 0%nat ∧ r ≠ 0 ∧ r < rprev ∧ d = prev - 1).
Proof.
  intros Hi. cbv zeta. rewrite (fixed_depth_rule lines i) by done.
  unfold next_depth, raw_indent.
  destruct (Nat.eqb_spec i 0); [by left|right].
  destruct (Z.eqb_spec (map _get_indent lines !!! i) 0); [by left|right].
  destruct (Z.eqb_spec (map _get_indent lines !!! i)
                       (map _get_indent lines !!! (i - 1)%nat)); [by left|right].
  destruct (Z.gtb_spec (map _get_indent lines !!! i)
                       (map _get_indent lines !!! (i - 1)%nat)).
  - left. repeat split; [done..|lia].
  - right. repeat split; [done..|lia].
Qed.

Lemma fix_indents_depth_cases_witness :
  let lines := ["a"; "  b"; "    c"; "  d"] in
  let d := fixed_depth lines 3 in
  let prev := fixed_depth lines (3 - 1) in
  let r := raw_indent lines 3 in
  let rprev := raw_indent lines (3 - 1) in
  (3%nat = 0%nat ∧ d = 0)
  ∨ (3%nat ≠ 0%nat ∧ r = 0 ∧ d = 0)
  ∨ (3%nat ≠ 0%nat ∧ r ≠ 0 ∧ r = rprev ∧ d = prev)
  ∨ (3%nat ≠ 0%nat ∧ r ≠ 0 ∧ r > rprev ∧ d = prev + 1)
  ∨ (3%nat ≠ 0%nat ∧ r ≠ 0 ∧ r < rprev ∧ d = prev - 1).
Proof.
  apply (fix_indents_depth_cases ["a"; "  b"; "    c"; "  d"] 3).
  simpl. lia.
Defined.

(** C2 as stated fails: line 3 is less indented than line 2, whose depth
    is 2, yet it gets depth 0 and not 1, because its raw indent is 0. *)
Lemma fix_indents_dedent_counterexample :
  let lines := ["a"; " b"; "  c"; "d"] in
  raw_indent lines 3 < raw_indent lines 2
  ∧ fixed_depth lines 2 = 2
  ∧ fixed_depth lines 3 = 0
  ∧ fixed_depth lines 3 ≠ fixed_depth lines 2 - 1.
Proof. vm_compute. repeat split; congruence. Qed.

(** C3, as amended: the entry [d] of the fixed indent map for line [i]
    lies between [-i] and [i] and can be negative; the line is rewritten
    with [max 0 d] leading spaces, so the indentation of every rewritten
    line is non-negative. *)
Theorem fix_indents_written_depth (lines : list string) (i : nat) (line : string) :
  fix_indents lines !! i = Some line →
  - Z.of_nat i <= fixed_depth lines i <= Z.of_nat i
  ∧ _get_indent line = Z.max 0 (fixed_depth lines i)
  ∧ 0 <= _get_indent line.
Proof.
  intros Hline.
  assert (i < length lines)%nat as Hi.
  { rewrite <- fix_indents_length. by eapply lookup_lt_Some. }
  split; [by apply fixed_depth_bounds|].
  pose proof (final_depth_max lines i Hi) as Hmax.
  unfold final_depth in Hmax.
  rewrite list_lookup_total_alt, list_lookup_fmap, Hline in Hmax. simpl in Hmax.
  lia.
Qed.

Lemma fix_indents_written_depth_witness :
  let lines := ["a"; "    b"; "  c"; " d"] in
  - Z.of_nat 3 <= fixed_depth lines 3 <= Z.of_nat 3
  ∧ _get_indent "d" = Z.max 0 (fixed_depth lines 3)
  ∧ 0 <= _get_indent "d".
Proof.
  apply (fix_indents_written_depth ["a"; "    b"; "  c"; " d"] 3 "d").
  vm_compute. reflexivity.
Defined.

(** C3 as stated fails: two successive dedents after a single indent
    take the fixed indent map to -1. *)
Lemma fix_indents_negative_counterexample :
  let lines := ["a"; "    b"; "  c"; " d"] in
  fixed_indent_map (map _get_indent lines) = [0; 1; 0; -1]
  ∧ ¬ Forall (λ d, 0 <= d) (fixed_indent_map (map _get_indent lines)).
Proof.
  cbv zeta.
  assert (fixed_indent_map (map _get_indent ["a"; "    b"; "  c"; " d"])
          = [0; 1; 0; -1]) as -> by (vm_compute; reflexivity).
  split; [done|]. rewrite !Forall_cons. lia.
Qed.

(** ** The query engine *)

Section Query.
Context `{ReEngine}.
Import Line Parser.

Implicit Types (self : BaseConfigParser) (l line : BaseConfigLine).

Lemma bind_ok {A B} (m : Py A) (f : A → Py B) log a log' :
  m log = (Ok a, log') → (m ≫= f) log = f a log'.
Proof. unfold mbind, Py_bind. by intros ->. Qed.

Lemma bind_raise {A B} (m : Py A) (f : A → Py B) log e log' :
  m log = (Raise e, log') → (m ≫= f) log = (Raise e, log').
Proof. unfold mbind, Py_bind. by intros ->. Qed.

(** The loop of [find_objects] keeps, in order, the lines whose search
    result is truthy, and those results. *)
Lemma find_loop pattern group (ls : list BaseConfigLine) acc :
  foldl (find_step pattern group) acc ls
  = (acc.1 ++ List.filter (λ l, truthy (re_search l pattern group)) ls,
     acc.2 ++ List.filter truthy (map (λ l, re_search l pattern group) ls)).
Proof.
  revert acc. induction ls as [|l ls IH]; intros [a1 a2]; simpl.
  { by rewrite !app_nil_r. }
  rewrite IH. unfold find_step. simpl.
  destruct (truthy (re_search l pattern group)); simpl; [|done].
  by rewrite <- !app_assoc.
Qed.

(** The pattern [find_objects] passes on, whatever the log. *)
Lemma find_objects_pattern regex flags log :
  ∃ log',
    match regex with
    | RPat p => mret (Some p)
    | _ => _compile_regex regex flags
    end log = (Ok (searched_pattern regex flags), log').
Proof.
  destruct regex as [|s|p]; simpl; unfold _compile_regex; simpl.
  - eexists. reflexivity.
  - destruct (re_compile s flags); eexists; reflexivity.
  - eexists. reflexivity.
Qed.

Lemma find_objects_unfold self regex flags group log :
  ∃ log1 log2,
    find_objects self regex flags group log
    = (Ok match group with
          | GNone =>
              map OLine (List.filter
                (λ l, truthy (captured regex flags GNone l)) (lines self))
          | _ =>
              map OValue (List.filter truthy
                (map (captured regex flags group) (lines self)))
          end, log2)
    ∧ log2 = log1 ++ match group with
                     | GNone => [(DEBUG, MatchedLines
                          (length (List.filter
                             (λ l, truthy (captured regex flags GNone l))
                             (lines self))) regex)]
                     | _ => []
                     end.
Proof.
  destruct (find_objects_pattern regex flags log) as [log1 Hpat].
  exists log1. unfold find_objects.
  rewrite (bind_ok _ _ _ _ _ Hpat), find_loop. simpl.
  destruct group; eexists; (split; [|reflexivity]);
    rewrite ?app_nil_r; try reflexivity.
  unfold mbind, Py_bind, logger, mret, Py_ret. by rewrite length_map.
Qed.

Lemma captured_no_match regex flags group l :
  matches regex flags l = false → captured regex flags group l = VNone.
Proof.
  unfold matches, captured, re_search.
  destruct (searched_pattern regex flags) as [p|]; simpl; [|done].
  destruct (p_search p (text l)) as [m|]; [|done].
  intros Hm. apply bool_decide_eq_false in Hm. by destruct Hm.
Qed.

Lemma filter_none {A} (f : A → bool) (ls : list A) :
  forallb (λ x, negb (f x)) ls = true → List.filter f ls = [].
Proof.
  induction ls as [|x ls IH]; simpl; [done|].
  intros [Hx Hls]%andb_prop. apply negb_true_iff in Hx. rewrite Hx. auto.
Qed.

Lemma no_line_captured self regex flags group :
  matches_no_line self regex flags = true →
  forallb (λ l, negb (truthy (captured regex flags group l))) (lines self) = true.
Proof.
  unfold matches_no_line. rewrite !forallb_forall. intros Hno l Hl.
  specialize (Hno l Hl). apply negb_true_iff in Hno.
  by rewrite captured_no_match.
Qed.

Lemma no_line_found self regex flags group :
  matches_no_line self regex flags = true →
  List.filter truthy (map (captured regex flags group) (lines self)) = [].
Proof.
  intros Hno%(no_line_captured _ _ _ group).
  induction (lines self) as [|l ls IH]; simpl in *; [done|].
  apply andb_prop in Hno as [Hl Hls]. apply negb_true_iff in Hl.
  rewrite Hl. auto.
Qed.

Lemma find_nothing self regex flags group log :
  matches_no_line self regex flags = true →
  ∃ log', find_objects self regex flags group log = (Ok [], log').
Proof.
  intros Hno.
  destruct (find_objects_unfold self regex flags group log) as (log1 & log2 & -> & _).
  exists log2. f_equal. f_equal. destruct group.
  - by rewrite (filter_none _ _ (no_line_captured _ _ _ GNone Hno)).
  - by rewrite no_line_found.
  - by rewrite no_line_found.
Qed.

(** A text that does not compile matches no line. *)
Lemma compile_failure_matches_no_line self s flags :
  re_compile s flags = None → matches_no_line self (RStr s) flags = true.
Proof.
  intros Hfail. unfold matches_no_line, matches. simpl. rewrite Hfail.
  by induction (lines self).
Qed.

(** A truthy captured value comes from a line that matches. *)
Lemma captured_truthy_matches regex flags group l :
  truthy (captured regex flags group l) = true → matches regex flags l = true.
Proof.
  intros Htrue. destruct (matches regex flags l) eqn:Hm; [done|].
  by rewrite captured_no_match in Htrue.
Qed.

End Query.

(** C6: a pattern that matches no line, a text that does not compile
    included, makes [find_objects] return the empty list; nothing is
    raised. *)
Theorem find_objects_no_match `{ReEngine} (self : BaseConfigParser)
    (regex : Regex) (flags : Z) (group : Group) (log : Log) :
  matches_no_line self regex flags = true →
  ∃ log', Parser.find_objects self regex flags group log = (Ok [], log').
Proof. apply find_nothing. Qed.

Lemma find_objects_no_match_witness :
  ∃ log', @Parser.find_objects Sample.compile_text Sample.parser
            (RStr "(") MULTILINE (GStr "name") [] = (Ok [], log').
Proof.
  apply (@find_objects_no_match Sample.compile_text Sample.parser (RStr "(")).
  vm_compute. reflexivity.
Defined.

(** C7, as amended: with a group name or index, [find_objects] returns in
    line order the value captured on every line where that value is truthy;
    a matching line whose captured value is the empty string or [None]
    contributes nothing. *)
Theorem find_objects_group_values `{ReEngine} (self : BaseConfigParser)
    (regex : Regex) (flags : Z) (group : Group) (log : Log) :
  group ≠ GNone →
  let values :=
    List.filter truthy (map (captured regex flags group) (lines self)) in
  (∃ log', Parser.find_objects self regex flags group log
           = (Ok (map OValue values), log'))
  ∧ ∀ v, v ∈ values →
         truthy v = true
         ∧ ∃ l, l ∈ lines self ∧ matches regex flags l = true
                ∧ captured regex flags group l = v.
Proof.
  intros Hgroup. cbv zeta. split.
  - destruct (find_objects_unfold self regex flags group log)
      as (log1 & log2 & -> & _).
    exists log2. by destruct group.
  - intros v [Hin Htrue]%list_elem_of_In%filter_In. split; [done|].
    apply in_map_iff in Hin as (l & <- & Hl). exists l.
    split; [by apply list_elem_of_In|].
    split; [by eapply captured_truthy_matches|done].
Qed.

Lemma find_objects_group_values_witness :
  let values :=
    List.filter truthy
      (map (@captured Sample.compile_text (RPat Sample.interface_pattern)
              MULTILINE (GInt 1))
           (lines Sample.parser)) in
  (∃ log', @Parser.find_objects Sample.compile_text Sample.parser
             (RPat Sample.interface_pattern) MULTILINE (GInt 1) []
           = (Ok (map OValue values), log'))
  ∧ ∀ v, v ∈ values →
         truthy v = true
         ∧ ∃ l, l ∈ lines Sample.parser
                ∧ @matches Sample.compile_text (RPat Sample.interface_pattern)
                    MULTILINE l = true
                ∧ @captured Sample.compile_text (RPat Sample.interface_pattern)
                    MULTILINE (GInt 1) l = v.
Proof.
  apply (@find_objects_group_values Sample.compile_text Sample.parser
           (RPat Sample.interface_pattern) MULTILINE (GInt 1) []).
  discriminate.
Defined.

(** C7 as stated fails: the line [interface] matches
    [^interface(?P<name>.*$)] with an empty [name], and no value is
    returned for it. *)
Lemma find_objects_empty_capture_counterexample :
  let find := @Parser.find_objects Sample.compile_text in
  let regex := RPat Sample.interface_pattern in
  Sample.bare ∈ lines Sample.parser
  ∧ @matches Sample.compile_text regex MULTILINE Sample.bare = true
  ∧ @captured Sample.compile_text regex MULTILINE (GStr "name") Sample.bare
    = VStr EmptyString
  ∧ length (List.filter (@matches Sample.compile_text regex MULTILINE)
              (lines Sample.parser)) = 3%nat
  ∧ find Sample.parser regex MULTILINE (GStr "name") []
    = (Ok [OValue (VStr " Ethernet0/0"); OValue (VStr " Ethernet0/1")], []).
Proof.
  cbv zeta. split; [|vm_compute; done].
  unfold Sample.parser. simpl. set_solver.
Qed.

(** C4, as amended: when the candidate pattern matches no line,
    [property_autoparse] returns [None], the value [properties] was
    initialised with, and raises nothing; it does not return an empty
    list. *)
Theorem property_autoparse_no_candidates `{ReEngine} (self : BaseConfigParser)
    (candidate_pattern : Regex) (patterns : list Regex) (log : Log) :
  matches_no_line self candidate_pattern MULTILINE = true →
  ∃ log',
    Parser.property_autoparse self candidate_pattern patterns log = (Ok None, log').
Proof.
  intros Hno.
  destruct (find_nothing self candidate_pattern MULTILINE GNone log Hno)
    as [log' Hfind].
  exists log'. unfold Parser.property_autoparse.
  by rewrite (bind_ok _ _ _ _ _ Hfind).
Qed.

Lemma property_autoparse_no_candidates_witness :
  ∃ log',
    @Parser.property_autoparse Sample.compile_text Sample.parser
      (RStr "^hostname (?P<hostname>.*$)") [RPat Sample.ip_pattern] []
    = (Ok None, log').
Proof.
  apply (@property_autoparse_no_candidates Sample.compile_text Sample.parser).
  vm_compute. reflexivity.
Defined.

(** C4 as stated fails: no line of the sample starts with [hostname], and
    the result is [None], not the empty list. *)
Lemma property_autoparse_none_counterexample :
  let result :=
    (@Parser.property_autoparse Sample.compile_text Sample.parser
       (RPat Sample.hostname_pattern) [RPat Sample.ip_pattern] []).1 in
  @matches_no_line Sample.compile_text Sample.parser
    (RPat Sample.hostname_pattern) MULTILINE = true
  ∧ result = Ok None
  ∧ result ≠ Ok (Some []).
Proof. vm_compute. repeat split; congruence. Qed.

(** ** The section resolver *)

(** C5: when the patterns before [parent] have each singled out one
    parent, leaving the candidates [section], then at [parent]: exactly one
    candidate that has children and matches makes the walk go on from the
    children of that candidate; none, or more than one, makes the call
    return the empty list and log which of the two happened.  The first
    match is never picked among several. *)
Theorem get_section_by_parents_step `{ReEngine} (self : BaseConfigParser)
    (before : list Regex) (parent : Regex) (rest : list Regex)
    (section : list BaseConfigLine) (log : Log) :
  candidates_after (lines self) before = Some section →
  let result := Parser.get_section_by_parents self (before ++ parent :: rest) log in
  (∃ x, matching_parents section parent = [x]
        ∧ result = Parser.section_walk (Line.get_children x) rest log)
  ∨ (matching_parents section parent = []
     ∧ result = (Ok [], log ++ [(ERROR, NoParents)]))
  ∨ ((2 <= length (matching_parents section parent))%nat
     ∧ result = (Ok [], log ++ [(ERROR, MultipleParents)])).
Proof.
  unfold Parser.get_section_by_parents. generalize (lines self) as start.
  induction before as [|p before IH]; intros start Hafter; simpl in Hafter.
  - injection Hafter as ->. simpl. fold (matching_parents section parent).
    destruct (matching_parents section parent) as [|x [|y l]]; simpl.
    + right; left. done.
    + left. by exists x.
    + right; right. split; [lia|done].
  - simpl. fold (matching_parents start p).
    destruct (matching_parents start p) as [|x [|y l]]; simpl in *; try done.
    by apply IH.
Qed.

Lemma get_section_by_parents_step_witness :
  let section := [Sample.description; Sample.ip_address] in
  let parent := RPat Sample.indented_pattern in
  let result :=
    @Parser.get_section_by_parents Sample.compile_text Sample.parser
      ([RPat Sample.ethernet0_pattern] ++ [parent]) [] in
  (∃ x, @matching_parents Sample.compile_text section parent = [x]
        ∧ result = @Parser.section_walk Sample.compile_text
                     (Line.get_children x) [] [])
  ∨ (@matching_parents Sample.compile_text section parent = []
     ∧ result = (Ok [], [] ++ [(ERROR, NoParents)]))
  ∨ ((2 <= length (@matching_parents Sample.compile_text section parent))%nat
     ∧ result = (Ok [], [] ++ [(ERROR, MultipleParents)])).
Proof.
  apply (@get_section_by_parents_step Sample.compile_text Sample.parser
           [RPat Sample.ethernet0_pattern] (RPat Sample.indented_pattern) []
           [Sample.description; Sample.ip_address] []).
  vm_compute. reflexivity.
Defined.

(** The section of the one line that [^interface Ethernet0/0] singles
    out, and the refusal to choose between the two interface lines. *)
Example section_of_ethernet0 :
  (@Parser.get_section_by_parents Sample.compile_text Sample.parser
     [RPat Sample.ethernet0_pattern] [])
  = (Ok [Sample.description; Sample.ip_address], [])
  ∧ (@Parser.get_section_by_parents Sample.compile_text Sample.parser
       [RPat Sample.interface_pattern] [])
    = (Ok [], [(ERROR, MultipleParents)]).
Proof. split; vm_compute; reflexivity. Qed.

(** ** The property extractor *)

Section Extract.
Context `{ReEngine}.
Import Line Parser.

Implicit Types (self : BaseConfigParser) (line : BaseConfigLine).

Lemma for_each_app {A B} (f : A → B → Py A) (l1 l2 : list B) a log :
  for_each f a (l1 ++ l2) log
  = (for_each f a l1 ≫= λ a', for_each f a' l2) log.
Proof.
  revert a log. induction l1 as [|x l1 IH]; intros a log; simpl; [done|].
  unfold mbind, Py_bind in *. destruct (f a x log) as [[a'|e] log']; [|done].
  apply IH.
Qed.

(** *** Results that do not depend on the log *)

Lemma appends_ret {A} (a : A) : appends (mret a : Py A).
Proof. exists (Ok a), []. intros log. by rewrite app_nil_r. Qed.

Lemma appends_raise {A} e : appends (raise e : Py A).
Proof. exists (Raise e), []. intros log. by rewrite app_nil_r. Qed.

Lemma appends_logger lvl msg : appends (logger lvl msg).
Proof. by exists (Ok tt), [(lvl, msg)]. Qed.

Lemma appends_bind {A B} (m : Py A) (f : A → Py B) :
  appends m → (∀ a, appends (f a)) → appends (m ≫= f).
Proof.
  intros (r & w & Hm) Hf. destruct r as [a|e].
  - destruct (Hf a) as (r' & w' & Hfa). exists r', (w ++ w'). intros log.
    rewrite (bind_ok _ _ _ _ _ (Hm log)), Hfa. by rewrite app_assoc.
  - exists (Raise e), w. intros log. by rewrite (bind_raise _ _ _ _ _ (Hm log)).
Qed.

Lemma appends_for_each {A B} (f : A → B → Py A) (l : list B) a :
  (∀ a x, appends (f a x)) → appends (for_each f a l).
Proof.
  intros Hf. revert a. induction l as [|x l IH]; intros a; simpl.
  - apply appends_ret.
  - apply appends_bind; auto.
Qed.

Lemma appends_result {A} (m : Py A) log1 log2 :
  appends m → (m log1).1 = (m log2).1.
Proof. intros (r & w & Hm). by rewrite !Hm. Qed.

Lemma appends_dict_update entry v : appends (dict_update entry v).
Proof.
  destruct v as [|[|c s]|d|m]; simpl;
    first [apply appends_ret | apply appends_raise].
Qed.

Lemma appends_no_match_policy self entry pattern :
  appends (no_match_policy self entry pattern).
Proof.
  unfold no_match_policy. apply appends_bind.
  - unfold get_minimal_results.
    destruct (minimal_results self); [apply appends_ret|apply appends_raise].
  - intros [|]; [apply appends_ret|]. apply appends_bind.
    + destruct pattern; simpl; [apply appends_raise..|apply appends_ret].
    + intros d. apply appends_dict_update.
Qed.

Lemma appends_child_step self candidate entry pattern :
  appends (child_step self candidate entry pattern).
Proof.
  unfold child_step.
  destruct (re_search_children candidate pattern ALL) as [|u [|u' us]].
  - apply appends_no_match_policy.
  - apply appends_dict_update.
  - apply appends_bind; [apply appends_logger|intros; apply appends_ret].
Qed.

(** *** Searches for all named groups *)

Lemma re_search_all line pattern c m :
  resolve pattern = Some c → p_search c (text line) = Some m →
  re_search line pattern ALL = VDict (groupdict c m).
Proof. unfold re_search. by intros -> ->. Qed.

Lemma re_search_all_cases line pattern :
  re_search line pattern ALL = VNone ∨ ∃ d, re_search line pattern ALL = VDict d.
Proof.
  unfold re_search. destruct (resolve pattern) as [c|]; [|by left].
  destruct (p_search c (text line)) as [m|]; [|by left].
  right. by eexists.
Qed.

Lemma re_search_none_all line pattern :
  truthy (re_search line pattern GNone) = true →
  ∃ d, re_search line pattern ALL = VDict d.
Proof.
  unfold re_search. destruct (resolve pattern) as [c|]; [|done].
  destruct (p_search c (text line)) as [m|]; [|done].
  by eexists.
Qed.

Lemma re_search_children_all candidate pattern :
  Forall (λ v, ∃ d, v = VDict d) (re_search_children candidate pattern ALL).
Proof.
  unfold re_search_children. rewrite Forall_forall. intros v Hv.
  apply list_elem_of_In, in_map_iff in Hv as (c & <- & Hc).
  apply filter_In in Hc as [_ Hc]. by apply re_search_none_all.
Qed.

Lemma re_search_children_length candidate pattern group :
  length (re_search_children candidate pattern group)
  = length (matching_children candidate pattern).
Proof. unfold re_search_children. by rewrite length_map. Qed.

Lemma match_step_match self line entry pattern c m log :
  resolve pattern = Some c → p_search c (text line) = Some m →
  match_step self line entry pattern log = (Ok (groupdict c m ∪ entry), log).
Proof.
  intros Hc Hm. unfold match_step. by rewrite (re_search_all _ _ _ _ Hc Hm).
Qed.

(** *** Reading an attribute that was never assigned *)

Lemma no_match_policy_unset self entry pattern log :
  minimal_results self = None →
  no_match_policy self entry pattern log = (Raise unset, log).
Proof.
  intros Hunset. unfold no_match_policy, get_minimal_results.
  by rewrite Hunset.
Qed.

Lemma match_step_unset self line entry pattern :
  minimal_results self = None →
  returns_or_raises unset (match_step self line entry pattern).
Proof.
  intros Hunset log. unfold match_step.
  destruct (re_search_all_cases line pattern) as [->|[d ->]].
  - right. rewrite no_match_policy_unset by done. by eexists.
  - left. simpl. by do 2 eexists.
Qed.

Lemma child_step_unset self candidate entry pattern :
  minimal_results self = None →
  returns_or_raises unset (child_step self candidate entry pattern).
Proof.
  intros Hunset log. unfold child_step.
  pose proof (re_search_children_all candidate pattern) as Hall.
  destruct (re_search_children candidate pattern ALL) as [|u [|u' us]].
  - right. rewrite no_match_policy_unset by done. by eexists.
  - apply Forall_cons in Hall as [[d ->] _]. left. simpl. by do 2 eexists.
  - left. by do 2 eexists.
Qed.

(** A loop whose iterations return or raise [e], and one of which is
    bound to raise [e], raises [e]. *)
Lemma for_each_raises {A B} (f : A → B → Py A) (e : Exn) (l : list B) x :
  (∀ a y, y ∈ l → returns_or_raises e (f a y)) →
  x ∈ l →
  (∀ a log, ∃ log', f a x log = (Raise e, log')) →
  ∀ a log, ∃ log', for_each f a l log = (Raise e, log').
Proof.
  intros Hall Hx Hraise. induction l as [|y l IH]; intros a log.
  { by apply elem_of_nil in Hx. }
  simpl. destruct (Hall a y ltac:(left) log) as [(a' & log' & Hy)|(log' & Hy)].
  - rewrite (bind_ok _ _ _ _ _ Hy).
    apply elem_of_cons in Hx as [->|Hx].
    + destruct (Hraise a log) as [log'' Hy']. congruence.
    + apply IH; [|done]. intros a0 y0 Hy0. apply Hall. by right.
  - rewrite (bind_raise _ _ _ _ _ Hy). by eexists.
Qed.

End Extract.

(** C8: the patterns are applied in list order and a later pattern
    overwrites the keys of an earlier one: when [p1] and [p2] both match
    the text of the line and [p2] defines the named group [x], the value at
    [x] in the dictionary of [match_to_dict line [p1; p2]] is what [p2]
    captured, whatever [p1] captured under the same name. *)
Theorem match_to_dict_later_wins `{ReEngine} (self : BaseConfigParser)
    (line : BaseConfigLine) (p1 p2 : Regex) (c1 c2 : Pattern) (m1 m2 : Match)
    (x : string) (i : nat) (log : Log) :
  Line.resolve p1 = Some c1 → p_search c1 (text line) = Some m1 →
  Line.resolve p2 = Some c2 → p_search c2 (text line) = Some m2 →
  groupindex c2 !! x = Some i →
  ∃ entry,
    Parser.match_to_dict self line [p1; p2] log = (Ok entry, log)
    ∧ entry = Line.groupdict c2 m2 ∪ (Line.groupdict c1 m1 ∪ ∅)
    ∧ entry !! x = Line.groupdict c2 m2 !! x
    ∧ entry !! x = Some (mjoin (m2 !! i)).
Proof.
  intros Hc1 Hm1 Hc2 Hm2 Hx. eexists. split; [|split; [reflexivity|]].
  - unfold Parser.match_to_dict. simpl.
    rewrite (bind_ok _ _ _ _ _ (match_step_match self line ∅ p1 c1 m1 log Hc1 Hm1)).
    rewrite (bind_ok _ _ _ _ _ (match_step_match self line _ p2 c2 m2 log Hc2 Hm2)).
    reflexivity.
  - assert (Line.groupdict c2 m2 !! x = Some (mjoin (m2 !! i))) as Hd.
    { unfold Line.groupdict. by rewrite lookup_fmap, Hx. }
    assert ((Line.groupdict c2 m2 ∪ (Line.groupdict c1 m1 ∪ ∅)) !! x
            = Some (mjoin (m2 !! i))) as He
      by (by apply lookup_union_Some_l).
    split; congruence.
Qed.

Lemma match_to_dict_later_wins_witness :
  ∃ entry,
    @Parser.match_to_dict Sample.compile_text Sample.parser Sample.ethernet0
      [RPat Sample.interface_pattern; RPat Sample.inter_pattern] []
    = (Ok entry, [])
    ∧ entry = Line.groupdict Sample.inter_pattern
                [Some "interface Ethernet0/0"; Some "face Ethernet0/0"]
              ∪ (Line.groupdict Sample.interface_pattern
                   [Some "interface Ethernet0/0"; Some " Ethernet0/0"] ∪ ∅)
    ∧ entry !! "name"
      = Line.groupdict Sample.inter_pattern
          [Some "interface Ethernet0/0"; Some "face Ethernet0/0"] !! "name"
    ∧ entry !! "name"
      = Some (mjoin ([Some "interface Ethernet0/0"; Some "face Ethernet0/0"]
                     !! 1%nat)).
Proof.
  apply (@match_to_dict_later_wins Sample.compile_text Sample.parser
           Sample.ethernet0 (RPat Sample.interface_pattern)
           (RPat Sample.inter_pattern) Sample.interface_pattern
           Sample.inter_pattern
           [Some "interface Ethernet0/0"; Some " Ethernet0/0"]
           [Some "interface Ethernet0/0"; Some "face Ethernet0/0"]
           "name" 1%nat []); vm_compute; reflexivity.
Defined.

(** On the first interface line, [^interface(?P<name>.*$)] then
    [^inter(?P<name>.*$)] leave what the second one captured; in the other
    order, what the first one of the two captured. *)
Example match_to_dict_order :
  let run patterns :=
    match (@Parser.match_to_dict Sample.compile_text Sample.parser
             Sample.ethernet0 patterns []).1 with
    | Ok entry => entry !! "name"
    | Raise _ => None
    end in
  run [RPat Sample.interface_pattern; RPat Sample.inter_pattern]
  = Some (Some "face Ethernet0/0")
  ∧ run [RPat Sample.inter_pattern; RPat Sample.interface_pattern]
    = Some (Some " Ethernet0/0").
Proof. split; vm_compute; reflexivity. Qed.

Section SectionExtract.
Context `{ReEngine}.
Import Line Parser.

Implicit Types (self : BaseConfigParser) (candidate : BaseConfigLine).

(** The result of a body followed by a pure step. *)
Lemma bind_ret_result {A B} (m : Py A) (g : A → B) log :
  ((m ≫= λ a, mret (g a)) log).1
  = match (m log).1 with Ok a => Ok (g a) | Raise e => Raise e end.
Proof. unfold mbind, Py_bind. by destruct (m log) as [[a|e] log']. Qed.

Lemma child_step_ambiguous self candidate entry pattern log :
  (2 <= length (matching_children candidate pattern))%nat →
  child_step self candidate entry pattern log
  = (Ok entry, log ++ [(WARNING, MultipleUpdates pattern candidate)]).
Proof.
  rewrite <- (re_search_children_length _ _ ALL). unfold child_step.
  destruct (re_search_children candidate pattern ALL) as [|u [|u' us]];
    simpl; [lia..|done].
Qed.

(** Dropping an ambiguous pattern from the list changes no dictionary. *)
Lemma children_loop_skip self candidate before pattern rest entry log :
  (2 <= length (matching_children candidate pattern))%nat →
  (for_each (child_step self candidate) entry (before ++ pattern :: rest) log).1
  = (for_each (child_step self candidate) entry (before ++ rest) log).1.
Proof.
  intros Hamb. rewrite !for_each_app. unfold mbind, Py_bind.
  destruct (for_each (child_step self candidate) entry before log)
    as [[e1|e] log1]; [|done].
  simpl. rewrite (bind_ok _ _ _ _ _ (child_step_ambiguous _ _ _ _ _ Hamb)).
  apply appends_result, appends_for_each. intros. apply appends_child_step.
Qed.

Lemma section_entry_skip self parent candidate before pattern rest log :
  (2 <= length (matching_children candidate pattern))%nat →
  (section_entry self parent (OLine candidate) (before ++ pattern :: rest) log).1
  = (section_entry self parent (OLine candidate) (before ++ rest) log).1.
Proof.
  intros Hamb. unfold section_entry. unfold mbind at 1 3, Py_bind at 1 3.
  match goal with |- context [match ?m log with _ => _ end] =>
    destruct (m log) as [[e0|e] log0] end; [|done].
  by apply children_loop_skip.
Qed.

Lemma section_of_line_result self candidate patterns return_with_line log :
  (section_property_autoparse self (ParentLine candidate) patterns
     return_with_line log).1
  = match (section_entry self (ParentLine candidate) (OLine candidate)
             patterns log).1 with
    | Ok entry =>
        Ok (Some [if return_with_line
                  then EntryWithLine (OLine candidate) entry
                  else EntryDict entry])
    | Raise e => Raise e
    end.
Proof.
  unfold section_property_autoparse. simpl.
  repeat (unfold mbind, Py_bind, mret, Py_ret; simpl).
  by destruct (section_entry self (ParentLine candidate) (OLine candidate)
                 patterns log) as [[e0|e] log0].
Qed.

End SectionExtract.

(** Both children of the first interface line are indented: the pattern
    [^ (?P<line>.*$)] is ambiguous there, adds no key, and is warned
    about. *)
Example section_ambiguous_children :
  let run :=
    @Parser.section_property_autoparse Sample.compile_text
      (Sample.with_minimal_results false) (ParentLine Sample.ethernet0)
      [RPat Sample.indented_pattern] false [] in
  run.1 = Ok (Some [EntryDict ∅]) ∧ map fst run.2 = [WARNING].
Proof. split; vm_compute; reflexivity. Qed.

Section Unset.
Context `{ReEngine}.
Import Line Parser.

Implicit Types (self : BaseConfigParser) (line candidate : BaseConfigLine).

Lemma returns_ret {A} e (a : A) : returns_or_raises e (mret a : Py A).
Proof. intros log. left. by do 2 eexists. Qed.

Lemma returns_bind {A B} e (m : Py A) (f : A → Py B) :
  returns_or_raises e m → (∀ a, returns_or_raises e (f a)) →
  returns_or_raises e (m ≫= f).
Proof.
  intros Hm Hf log. destruct (Hm log) as [(a & log' & Ha)|(log' & Ha)].
  - rewrite (bind_ok _ _ _ _ _ Ha). apply Hf.
  - right. rewrite (bind_raise _ _ _ _ _ Ha). by eexists.
Qed.

Lemma returns_for_each {A B} e (f : A → B → Py A) (l : list B) a :
  (∀ a x, returns_or_raises e (f a x)) → returns_or_raises e (for_each f a l).
Proof.
  intros Hf. revert a. induction l as [|x l IH]; intros a; simpl.
  - apply returns_ret.
  - apply returns_bind; auto.
Qed.

Lemma raises_bind {A B} e (m : Py A) (f : A → Py B) log :
  returns_or_raises e m →
  (∀ a log1, ∃ log', f a log1 = (Raise e, log')) →
  ∃ log', (m ≫= f) log = (Raise e, log').
Proof.
  intros Hm Hf. destruct (Hm log) as [(a & log' & Ha)|(log' & Ha)].
  - rewrite (bind_ok _ _ _ _ _ Ha). apply Hf.
  - rewrite (bind_raise _ _ _ _ _ Ha). by eexists.
Qed.

Lemma match_to_dict_unset self line patterns k pattern log :
  minimal_results self = None →
  patterns !! k = Some pattern →
  re_search line pattern ALL = VNone →
  ∃ log', match_to_dict self line patterns log = (Raise unset, log').
Proof.
  intros Hunset Hk Hnone. unfold match_to_dict.
  apply (for_each_raises _ unset patterns pattern).
  - intros. by apply match_step_unset.
  - by eapply list_elem_of_lookup_2.
  - intros a log1. unfold match_step. rewrite Hnone.
    rewrite no_match_policy_unset by done. by eexists.
Qed.

Lemma parent_entry_unset self parent candidate :
  minimal_results self = None →
  returns_or_raises unset
    (match parent with
     | ParentRegex r =>
         d ← match_obj_to_dict self (OLine candidate) [r];
         dict_update ∅ (VDict d)
     | ParentLine _ => mret ∅
     end).
Proof.
  intros Hunset. destruct parent as [l|r]; [apply returns_ret|].
  apply returns_bind; [|intros d; apply returns_ret].
  simpl. apply returns_for_each. intros. by apply match_step_unset.
Qed.

Lemma section_entry_returns self parent candidate patterns :
  minimal_results self = None →
  returns_or_raises unset (section_entry self parent (OLine candidate) patterns).
Proof.
  intros Hunset. unfold section_entry.
  apply returns_bind; [by apply parent_entry_unset|].
  intros entry. apply returns_for_each. intros. by apply child_step_unset.
Qed.

Lemma section_entry_unset self parent candidate patterns k pattern log :
  minimal_results self = None →
  patterns !! k = Some pattern →
  matching_children candidate pattern = [] →
  ∃ log',
    section_entry self parent (OLine candidate) patterns log = (Raise unset, log').
Proof.
  intros Hunset Hk Hnone. unfold section_entry.
  apply raises_bind; [by apply parent_entry_unset|].
  intros entry log1. apply (for_each_raises _ unset patterns pattern).
  - intros. by apply child_step_unset.
  - by eapply list_elem_of_lookup_2.
  - intros a log2. unfold child_step, re_search_children.
    fold (matching_children candidate pattern). rewrite Hnone. simpl.
    rewrite no_match_policy_unset by done. by eexists.
Qed.

(** The candidates of [section_property_autoparse], whatever the log. *)
Lemma section_candidates self parent log :
  parent ≠ ParentRegex RNone →
  ∃ log',
    match parent with
    | ParentLine l => mret [OLine l]
    | ParentRegex RNone => raise (UnboundLocalError "candidates")
    | ParentRegex r => find_objects self r MULTILINE GNone
    end log = (Ok (map OLine (parent_candidates self parent)), log').
Proof.
  intros Hparent. destruct parent as [l|r]; [by eexists|].
  destruct (find_objects_unfold self r MULTILINE GNone log)
    as (log1 & log2 & Hfind & _).
  destruct r; [done|by eexists..].
Qed.

Lemma section_property_autoparse_unset self parent candidate patterns j k
    pattern return_with_line log :
  minimal_results self = None →
  parent ≠ ParentRegex RNone →
  parent_candidates self parent !! j = Some candidate →
  patterns !! k = Some pattern →
  matching_children candidate pattern = [] →
  ∃ log',
    section_property_autoparse self parent patterns return_with_line log
    = (Raise unset, log').
Proof.
  intros Hunset Hparent Hj Hk Hnone. unfold section_property_autoparse.
  destruct (section_candidates self parent log Hparent) as [log1 Hcands].
  rewrite (bind_ok _ _ _ _ _ Hcands).
  assert ((length (map OLine (parent_candidates self parent)) =? 0)%nat = false)
    as ->.
  { apply Nat.eqb_neq. rewrite length_map.
    apply lookup_lt_Some in Hj. lia. }
  match goal with |- context [for_each ?f ?a0 ?l] =>
    assert (∃ log', for_each f a0 l log1 = (Raise unset, log'))
      as [log' Hloop];
    [apply (for_each_raises f unset l (OLine candidate))|] end.
  - intros a y (c' & -> & _)%list_elem_of_fmap.
    apply returns_bind; [by apply section_entry_returns|].
    intros entry. apply returns_ret.
  - apply list_elem_of_fmap. exists candidate.
    split; [done|by eapply list_elem_of_lookup_2].
  - intros a log2.
    destruct (section_entry_unset self parent candidate patterns k pattern
                log2 Hunset Hk Hnone) as [log' Hentry].
    exists log'. by rewrite (bind_raise _ _ _ _ _ Hentry).
  - exists log'. by rewrite (bind_raise _ _ _ _ _ Hloop).
Qed.

End Unset.

(** C10: [__init__] leaves [minimal_results] unassigned.  On a parser where
    it is still as [__init__] left it, [match_to_dict] raises
    [AttributeError] as soon as one of the patterns does not match the
    line; and [section_property_autoparse] raises it as soon as one of the
    patterns matches no child of one of the parent candidates, whatever
    the patterns do on the other lines: the minimal-results policy is
    never applied. *)
Theorem unset_minimal_results_raises `{ReEngine} (config : Config) (verbosity : Z)
    (self : BaseConfigParser) :
  minimal_results self = minimal_results (__init__ config verbosity) →
  minimal_results self = None
  ∧ (∀ (line : BaseConfigLine) (patterns : list Regex) (k : nat)
       (pattern : Regex) (log : Log),
       patterns !! k = Some pattern →
       Line.re_search line pattern ALL = VNone →
       ∃ log', Parser.match_to_dict self line patterns log
               = (Raise (AttributeError "minimal_results"), log'))
  ∧ (∀ (parent : Parent) (candidate : BaseConfigLine) (patterns : list Regex)
       (j k : nat) (pattern : Regex) (return_with_line : bool) (log : Log),
       parent ≠ ParentRegex RNone →
       parent_candidates self parent !! j = Some candidate →
       patterns !! k = Some pattern →
       matching_children candidate pattern = [] →
       ∃ log', Parser.section_property_autoparse self parent patterns
                 return_with_line log
               = (Raise (AttributeError "minimal_results"), log')).
Proof.
  intros Hinit. simpl in Hinit. split; [done|]. split.
  - intros line patterns k pattern log Hk Hline.
    by apply (match_to_dict_unset self line patterns k pattern).
  - intros parent candidate patterns j k pattern return_with_line log
      Hparent Hj Hk Hchildren.
    by apply (section_property_autoparse_unset self parent candidate patterns
                j k pattern).
Qed.

(** [match_to_dict] on the first interface line with a pattern that does
    not match it; [section_property_autoparse] on the line [shutdown],
    which has no children, with the pattern [^(?P<text>.*$)], which
    matches every line. *)
Lemma unset_minimal_results_raises_witness :
  minimal_results Sample.parser = None
  ∧ (∃ log', @Parser.match_to_dict Sample.compile_text Sample.parser
               Sample.ethernet0 [RPat Sample.interface_pattern;
                                 RPat Sample.hostname_pattern] []
             = (Raise (AttributeError "minimal_results"), log'))
  ∧ (∃ log', @Parser.section_property_autoparse Sample.compile_text
               Sample.parser (ParentLine Sample.shutdown)
               [RPat (Sample.prefix_pattern EmptyString "text")] false []
             = (Raise (AttributeError "minimal_results"), log'))
  ∧ (∃ log', @Parser.section_property_autoparse Sample.compile_text
               Sample.parser (ParentRegex (RPat Sample.interface_pattern))
               [RPat Sample.interface_pattern; RPat Sample.hostname_pattern]
               false []
             = (Raise (AttributeError "minimal_results"), log')).
Proof.
  destruct (@unset_minimal_results_raises Sample.compile_text
              (ConfigLines Sample.config_text) 4 Sample.parser eq_refl)
    as (Hunset & Hmatch & Hsection).
  split; [exact Hunset|]. split; [|split].
  - apply (Hmatch Sample.ethernet0
             [RPat Sample.interface_pattern; RPat Sample.hostname_pattern]
             1%nat (RPat Sample.hostname_pattern) []); reflexivity.
  - apply (Hsection (ParentLine Sample.shutdown) Sample.shutdown
             [RPat (Sample.prefix_pattern EmptyString "text")] 0%nat 0%nat
             (RPat (Sample.prefix_pattern EmptyString "text")) false []);
      [discriminate|reflexivity..].
  - apply (Hsection (ParentRegex (RPat Sample.interface_pattern))
             Sample.ethernet1
             [RPat Sample.interface_pattern; RPat Sample.hostname_pattern]
             1%nat 1%nat (RPat Sample.hostname_pattern) false []);
      [discriminate|vm_compute; reflexivity..].
Defined.

(** With the attribute assigned by the caller the same calls return: the
    keys of the pattern that did not match are left out, or set to
    [None]. *)
Example minimal_results_assigned :
  let run b :=
    match (@Parser.match_to_dict Sample.compile_text
             (Sample.with_minimal_results b) Sample.ethernet0
             [RPat Sample.interface_pattern; RPat Sample.hostname_pattern] []).1 with
    | Ok entry => Some (entry !! "name", entry !! "hostname")
    | Raise _ => None
    end in
  run true = Some (Some (Some " Ethernet0/0"), None)
  ∧ run false = Some (Some (Some " Ethernet0/0"), Some None).
Proof. split; vm_compute; reflexivity. Qed.

(** ** More on the indentation normaliser *)

Section Whitespace.

Implicit Types (s t line : string).

Lemma spaces_cons k s :
  string_of_list_ascii (replicate (S k) " "%char) +:+ s
  = String " " (string_of_list_ascii (replicate k " "%char) +:+ s).
Proof. reflexivity. Qed.

Lemma lstrip_spaces k s :
  Str.lstrip (string_of_list_ascii (replicate k " "%char) +:+ s) = Str.lstrip s.
Proof. induction k as [|k IH]; simpl; done. Qed.

Lemma lstrip_id s :
  match s with String c _ => Str.isspace c = false | EmptyString => True end →
  Str.lstrip s = s.
Proof. destruct s as [|c s]; simpl; [done|]. by intros ->. Qed.

Lemma rstrip_idemp s : Str.rstrip (Str.rstrip s) = Str.rstrip s.
Proof.
  induction s as [|c s IH]; simpl; [done|].
  destruct (Str.rstrip s) as [|c' r'] eqn:Hr.
  - destruct (Str.isspace c) eqn:Hc; simpl; [done|]. by rewrite Hc.
  - simpl in *. by rewrite IH.
Qed.

Lemma lstrip_strip s : Str.lstrip (Str.strip s) = Str.strip s.
Proof.
  apply lstrip_id. unfold Str.strip.
  pose proof (lstrip_head s) as Hl. pose proof (rstrip_head (Str.lstrip s)) as Hr.
  destruct (Str.lstrip s) as [|c t]; [done|].
  by destruct (Hr Hl) as [r ->].
Qed.

Lemma strip_idemp s : Str.strip (Str.strip s) = Str.strip s.
Proof.
  unfold Str.strip at 1. rewrite lstrip_strip. unfold Str.strip.
  apply rstrip_idemp.
Qed.

Lemma strip_rewritten d line : Str.strip (rewritten d line) = Str.strip line.
Proof.
  unfold rewritten, Str.spaces. unfold Str.strip at 1.
  rewrite lstrip_spaces, lstrip_strip. unfold Str.strip. apply rstrip_idemp.
Qed.

Lemma spaces_max d : Str.spaces (Z.max 0 d) = Str.spaces d.
Proof. unfold Str.spaces. f_equal. f_equal. lia. Qed.

Lemma rewritten_rewritten d line :
  rewritten (Z.max 0 d) (rewritten d line) = rewritten d line.
Proof.
  unfold rewritten at 1. rewrite strip_rewritten, spaces_max. reflexivity.
Qed.

Lemma get_indent_split line :
  0 <= _get_indent line <= Str.len line
  ∧ Str.spaces (_get_indent line) +:+ Str.lstrip_space line = line.
Proof.
  unfold _get_indent, Str.spaces, Str.len.
  induction line as [|c line [IHb IHs]]; simpl String.length; [by split|].
  cbn [Str.lstrip_space]. destruct (Ascii.eqb_spec c " "%char) as [->|Hc].
  - split; [lia|].
    replace (Z.to_nat (Z.of_nat (S (String.length line))
                       - Z.of_nat (String.length (Str.lstrip_space line))))
      with (S (Z.to_nat (Z.of_nat (String.length line)
                         - Z.of_nat (String.length (Str.lstrip_space line)))))
      by lia.
    rewrite spaces_cons. by rewrite IHs.
  - simpl String.length. split; [lia|].
    by rewrite Z.sub_diag.
Qed.

End Whitespace.

Section Normalised.

Implicit Types (lines : list string) (indent_map : list Z) (i : nat).

(** The depths a second pass computes are the indents the first pass
    wrote. *)
Lemma second_pass_depth lines i :
  (i < length lines)%nat →
  fixed_depth (fix_indents lines) i = Z.max 0 (fixed_depth lines i).
Proof.
  induction i as [|i IH]; intros Hi.
  { rewrite !fixed_depth_first by (rewrite ?fix_indents_length; lia). lia. }
  rewrite fixed_depth_rule by (by rewrite fix_indents_length).
  unfold next_depth. simpl Nat.eqb. cbv iota.
  replace (S i - 1)%nat with i by lia.
  fold (final_depth lines (S i)) (final_depth lines i).
  rewrite !final_depth_max, IH by lia.
  pose proof (fixed_depth_rule lines (S i) Hi) as Hd.
  unfold next_depth in Hd. simpl Nat.eqb in Hd. cbv iota in Hd.
  replace (S i - 1)%nat with i in Hd by lia.
  assert (fixed_depth lines (S i) = 0
          ∨ -1 <= fixed_depth lines (S i) - fixed_depth lines i <= 1) as Hstep.
  { repeat match type of Hd with context [if ?b then _ else _] =>
      destruct b end; lia. }
  clear Hd.
  destruct (Z.eqb_spec (Z.max 0 (fixed_depth lines (S i))) 0); [lia|].
  destruct (Z.eqb_spec (Z.max 0 (fixed_depth lines (S i)))
                       (Z.max 0 (fixed_depth lines i))); [lia|].
  destruct (Z.gtb_spec (Z.max 0 (fixed_depth lines (S i)))
                       (Z.max 0 (fixed_depth lines i))); lia.
Qed.

Lemma fix_indents_twice lines : fix_indents (fix_indents lines) = fix_indents lines.
Proof.
  apply list_eq. intros i. rewrite (fix_indents_lookup (fix_indents lines)).
  fold (fixed_depth (fix_indents lines) i). rewrite fix_indents_lookup.
  fold (fixed_depth lines i).
  destruct (lines !! i) as [line|] eqn:Hline; simpl; [|done].
  rewrite second_pass_depth by (by eapply lookup_lt_Some).
  by rewrite rewritten_rewritten.
Qed.

(** The depth appended at an index reads the raw indents only through
    comparisons. *)
Lemma next_depth_map (f : Z → Z) indent_map prev i :
  (∀ x, f x = 0 ↔ x = 0) → (∀ x y, x < y ↔ f x < f y) →
  (i < length indent_map)%nat →
  next_depth (f <$> indent_map) prev i = next_depth indent_map prev i.
Proof.
  intros Hzero Hmono Hi. unfold next_depth.
  destruct (Nat.eqb_spec i 0); [done|].
  rewrite !(list_lookup_total_fmap f indent_map) by lia.
  generalize (indent_map !!! i) (indent_map !!! (i - 1)%nat). intros x y.
  pose proof (Hzero x). pose proof (Hmono x y). pose proof (Hmono y x).
  destruct (Z.eqb_spec (f x) 0), (Z.eqb_spec x 0); try tauto.
  destruct (Z.eqb_spec (f x) (f y)) as [Hf|Hf], (Z.eqb_spec x y) as [Hxy|Hxy];
    [done|lia|by rewrite Hxy in Hf|].
  destruct (Z.gtb_spec (f x) (f y)), (Z.gtb_spec x y); lia.
Qed.

Lemma fixed_indent_map_map (f : Z → Z) indent_map :
  (∀ x, f x = 0 ↔ x = 0) → (∀ x y, x < y ↔ f x < f y) →
  fixed_indent_map (f <$> indent_map) = fixed_indent_map indent_map.
Proof.
  intros Hzero Hmono.
  assert (∀ i, (i < length indent_map)%nat →
               fixed_indent_map (f <$> indent_map) !!! i
               = fixed_indent_map indent_map !!! i) as Heq.
  { induction i as [|i IH]; intros Hi.
    - rewrite (fixed_indent_map_rule (f <$> indent_map) 0)
        by (rewrite length_fmap; lia).
      by rewrite (fixed_indent_map_rule indent_map 0) by lia.
    - rewrite (fixed_indent_map_rule (f <$> indent_map) (S i))
        by (rewrite length_fmap; lia).
      rewrite (fixed_indent_map_rule indent_map (S i)) by lia.
      replace (S i - 1)%nat with i by lia. rewrite IH by lia.
      by apply next_depth_map. }
  apply list_eq. intros i.
  destruct (decide (i < length indent_map)%nat) as [Hi|Hi].
  - rewrite !list_lookup_lookup_total_lt
      by (rewrite !fixed_indent_map_length, ?length_fmap; lia).
    by rewrite Heq.
  - rewrite !lookup_ge_None_2
      by (rewrite !fixed_indent_map_length, ?length_fmap; lia).
    done.
Qed.

End Normalised.

(** X1: [_get_indent] counts the leading spaces: it lies between 0 and the
    length of the line, and the line is that many spaces followed by what
    [lstrip(" ")] leaves. *)
Theorem get_indent_decomposes (line : string) :
  0 <= _get_indent line <= Str.len line
  ∧ Str.spaces (_get_indent line) +:+ Str.lstrip_space line = line.
Proof. apply get_indent_split. Qed.

(** X2: [fix_indents] keeps the number of lines and touches nothing but
    the whitespace at the two ends of a line: the stripped text of every
    line is the same before and after, and the new line is its depth in
    spaces followed by that text. *)
Theorem fix_indents_keeps_text (lines : list string) (i : nat) (line : string) :
  lines !! i = Some line →
  length (fix_indents lines) = length lines
  ∧ ∃ line',
      fix_indents lines !! i = Some line'
      ∧ line' = Str.spaces (fixed_depth lines i) +:+ Str.strip line
      ∧ Str.strip line' = Str.strip line.
Proof.
  intros Hline. split; [apply fix_indents_length|].
  rewrite fix_indents_lookup, Hline. simpl. eexists. split; [reflexivity|].
  split; [done|]. apply strip_rewritten.
Qed.

Lemma fix_indents_keeps_text_witness :
  let lines := ["interface Ethernet0/0  "; "     description Test"] in
  length (fix_indents lines) = length lines
  ∧ ∃ line',
      fix_indents lines !! 1%nat = Some line'
      ∧ line' = Str.spaces (fixed_depth lines 1) +:+ Str.strip "     description Test"
      ∧ Str.strip line' = Str.strip "     description Test".
Proof.
  apply (fix_indents_keeps_text
           ["interface Ethernet0/0  "; "     description Test"] 1
           "     description Test").
  reflexivity.
Defined.

(** X3: [fix_indents] is idempotent: normalising an already normalised
    configuration changes nothing. *)
Theorem fix_indents_idempotent (lines : list string) :
  fix_indents (fix_indents lines) = fix_indents lines.
Proof. apply fix_indents_twice. Qed.

(** X4: the fixed indent map depends on the raw indents only through
    which of them are 0 and how adjacent ones compare: rescaling the raw
    indents by a map that keeps 0 and the order (two spaces per level
    instead of one, say) gives the same depths. *)
Theorem fixed_indent_map_width (f : Z → Z) (indent_map : list Z) :
  (∀ x, f x = 0 ↔ x = 0) → (∀ x y, x < y ↔ f x < f y) →
  fixed_indent_map (f <$> indent_map) = fixed_indent_map indent_map.
Proof. apply fixed_indent_map_map. Qed.

Lemma fixed_indent_map_width_witness :
  fixed_indent_map ((λ x, 4 * x) <$> [0; 1; 2; 2; 1; 0])
  = fixed_indent_map [0; 1; 2; 2; 1; 0].
Proof.
  apply (fixed_indent_map_width (λ x, 4 * x) [0; 1; 2; 2; 1; 0]); intros; lia.
Defined.

(** ** More on the property extractor *)

Section Merging.
Context `{ReEngine}.
Import Line Parser.

Implicit Types (self : BaseConfigParser) (line : BaseConfigLine).

Lemma match_step_set self line entry pattern b log :
  minimal_results self = Some b →
  match_step self line entry pattern log
  = (match step_dict b line pattern with
     | Some d => Ok (d ∪ entry)
     | None => Raise (AttributeError "groupindex")
     end, log).
Proof.
  intros Hset. unfold match_step, step_dict, re_search, ALL.
  assert (no_match_policy self entry pattern log
          = (match no_match_dict b pattern with
             | Some d => Ok (d ∪ entry)
             | None => Raise (AttributeError "groupindex")
             end, log)) as Hpolicy.
  { unfold no_match_policy, get_minimal_results, no_match_dict. rewrite Hset.
    destruct b; simpl.
    - unfold mbind, Py_bind, mret, Py_ret. by rewrite (left_id_L ∅ (∪)).
    - by destruct pattern. }
  destruct (resolve pattern) as [c|]; [|done].
  destruct (p_search c (text line)) as [m|]; [|done].
  reflexivity.
Qed.

Lemma match_loop_set self line patterns entry b log :
  minimal_results self = Some b →
  for_each (match_step self line) entry patterns log
  = (match merged b line patterns entry with
     | Some d => Ok d
     | None => Raise (AttributeError "groupindex")
     end, log).
Proof.
  intros Hset. revert entry.
  induction patterns as [|p ps IH]; intros entry; simpl; [done|].
  unfold mbind, Py_bind. rewrite (match_step_set _ _ _ _ b) by done.
  destruct (step_dict b line p) as [d|]; [apply IH|done].
Qed.

(** Merging into an entry is merging into the empty dictionary, and
    then over the entry. *)
Lemma merged_acc b line patterns entry :
  merged b line patterns entry
  = (λ d, d ∪ entry) <$> merged b line patterns ∅.
Proof.
  revert entry. induction patterns as [|p ps IH]; intros entry; simpl.
  { by rewrite (left_id_L ∅ (∪)). }
  destruct (step_dict b line p) as [d|]; [|done].
  rewrite (IH (d ∪ entry)), (IH (d ∪ ∅)).
  destruct (merged b line ps ∅) as [e|]; simpl; [|done].
  by rewrite (right_id_L ∅ (∪)), (assoc_L (∪)).
Qed.

Lemma merged_app b line ps1 ps2 entry :
  merged b line (ps1 ++ ps2) entry
  = merged b line ps1 entry ≫= merged b line ps2.
Proof.
  revert entry. induction ps1 as [|p ps1 IH]; intros entry; simpl; [done|].
  destruct (step_dict b line p) as [d|]; [apply IH|done].
Qed.

Lemma step_dict_minimal line pattern :
  ∃ d, step_dict true line pattern = Some d ∧ dom d = matched_names line pattern.
Proof.
  unfold step_dict, matched_names, no_match_dict.
  destruct (resolve pattern) as [c|]; [|by exists ∅; rewrite dom_empty_L].
  destruct (p_search c (text line)) as [m|].
  - eexists. split; [done|]. unfold groupdict. by rewrite dom_fmap_L.
  - exists ∅. by rewrite dom_empty_L.
Qed.

Lemma step_dict_compiled line c :
  ∃ d, step_dict false line (RPat c) = Some d ∧ dom d = dom (groupindex c).
Proof.
  unfold step_dict, no_match_dict. simpl.
  destruct (p_search c (text line)) as [m|]; eexists; (split; [done|]).
  - unfold groupdict. by rewrite dom_fmap_L.
  - by rewrite dom_fmap_L.
Qed.

Lemma merged_keys_minimal line patterns :
  ∃ e, merged true line patterns ∅ = Some e
       ∧ dom e = ⋃ (matched_names line <$> patterns).
Proof.
  induction patterns as [|p ps (e & He & Hdom)]; simpl.
  { exists ∅. by rewrite dom_empty_L. }
  destruct (step_dict_minimal line p) as (d & -> & Hd).
  rewrite merged_acc, He. simpl. eexists. split; [done|].
  rewrite !dom_union_L, dom_empty_L, Hdom, Hd, (right_id_L ∅ (∪)).
  apply (comm_L (∪)).
Qed.

Lemma merged_keys_compiled line patterns :
  forallb is_compiled patterns = true →
  ∃ e, merged false line patterns ∅ = Some e
       ∧ dom e = ⋃ (group_names <$> patterns).
Proof.
  induction patterns as [|p ps IH]; simpl.
  { exists ∅. by rewrite dom_empty_L. }
  intros [Hp Hps]%andb_prop. destruct (IH Hps) as (e & He & Hdom).
  destruct p as [| |c]; try done.
  destruct (step_dict_compiled line c) as (d & -> & Hd).
  rewrite merged_acc, He. simpl. eexists. split; [done|].
  rewrite !dom_union_L, dom_empty_L, Hdom, Hd, (right_id_L ∅ (∪)).
  apply (comm_L (∪)).
Qed.

Lemma match_to_dict_set self line patterns b log :
  minimal_results self = Some b →
  match_to_dict self line patterns log
  = (match merged b line patterns ∅ with
     | Some d => Ok d
     | None => Raise (AttributeError "groupindex")
     end, log).
Proof. intros Hset. by apply match_loop_set. Qed.

(** [match_to_dict] leaves the log as it found it. *)
Lemma match_to_dict_log self line patterns log :
  (match_to_dict self line patterns log).2 = log.
Proof.
  destruct (minimal_results self) as [b|] eqn:Hset.
  { by rewrite (match_to_dict_set _ _ _ b). }
  unfold match_to_dict. generalize (∅ : dict) as entry.
  induction patterns as [|p ps IH]; intros entry; simpl; [done|].
  unfold mbind, Py_bind, match_step.
  destruct (re_search_all_cases line p) as [->|[d ->]].
  - by rewrite no_match_policy_unset.
  - simpl. apply IH.
Qed.

End Merging.

(** X5: with the minimal-results option on, [match_to_dict] never raises
    and logs nothing, whatever the patterns are (compiled, text or [None]);
    the keys of the dictionary are exactly the named groups of the patterns
    that match the line. *)
Theorem match_to_dict_minimal_keys `{ReEngine} (self : BaseConfigParser)
    (line : BaseConfigLine) (patterns : list Regex) (log : Log) :
  minimal_results self = Some true →
  ∃ entry,
    Parser.match_to_dict self line patterns log = (Ok entry, log)
    ∧ dom entry = ⋃ (matched_names line <$> patterns).
Proof.
  intros Hset. rewrite (match_to_dict_set _ _ _ true) by done.
  destruct (merged_keys_minimal line patterns) as (e & -> & Hdom). by exists e.
Qed.

Lemma match_to_dict_minimal_keys_witness :
  ∃ entry,
    @Parser.match_to_dict Sample.compile_text (Sample.with_minimal_results true)
      Sample.ethernet0
      [RPat Sample.interface_pattern; RStr "("; RPat Sample.hostname_pattern] []
    = (Ok entry, [])
    ∧ dom entry
      = ⋃ (@matched_names Sample.compile_text Sample.ethernet0
             <$> [RPat Sample.interface_pattern; RStr "(";
                  RPat Sample.hostname_pattern]).
Proof.
  apply (@match_to_dict_minimal_keys Sample.compile_text
           (Sample.with_minimal_results true)).
  reflexivity.
Defined.

(** X6: with the minimal-results option off and compiled patterns only,
    [match_to_dict] never raises and logs nothing, and every named group of
    every pattern is a key of the dictionary, whether the pattern matched
    or not. *)
Theorem match_to_dict_all_keys `{ReEngine} (self : BaseConfigParser)
    (line : BaseConfigLine) (patterns : list Regex) (log : Log) :
  minimal_results self = Some false →
  forallb is_compiled patterns = true →
  ∃ entry,
    Parser.match_to_dict self line patterns log = (Ok entry, log)
    ∧ dom entry = ⋃ (group_names <$> patterns).
Proof.
  intros Hset Hcompiled. rewrite (match_to_dict_set _ _ _ false) by done.
  destruct (merged_keys_compiled line patterns Hcompiled) as (e & -> & Hdom).
  by exists e.
Qed.

Lemma match_to_dict_all_keys_witness :
  ∃ entry,
    @Parser.match_to_dict Sample.compile_text (Sample.with_minimal_results false)
      Sample.ethernet0
      [RPat Sample.interface_pattern; RPat Sample.hostname_pattern] []
    = (Ok entry, [])
    ∧ dom entry
      = ⋃ (group_names <$> [RPat Sample.interface_pattern;
                            RPat Sample.hostname_pattern]).
Proof.
  apply (@match_to_dict_all_keys Sample.compile_text
           (Sample.with_minimal_results false)); reflexivity.
Defined.

(** X7: with the minimal-results option off, a pattern given as text (or
    as [None]) that finds nothing makes [match_to_dict] raise
    [AttributeError]: only a compiled pattern has a [groupindex].  The
    compiled patterns before it do not raise. *)
Theorem match_to_dict_text_pattern_raises `{ReEngine} (self : BaseConfigParser)
    (line : BaseConfigLine) (before : list Regex) (pattern : Regex)
    (rest : list Regex) (log : Log) :
  minimal_results self = Some false →
  forallb is_compiled before = true →
  is_compiled pattern = false →
  Line.re_search line pattern ALL = VNone →
  Parser.match_to_dict self line (before ++ pattern :: rest) log
  = (Raise (AttributeError "groupindex"), log).
Proof.
  intros Hset Hbefore Hpattern Hnone.
  rewrite (match_to_dict_set _ _ _ false) by done.
  rewrite merged_app.
  destruct (merged_keys_compiled line before Hbefore) as (e & -> & _). simpl.
  assert (step_dict false line pattern = None) as ->; [|done].
  unfold step_dict, no_match_dict. unfold Line.re_search in Hnone.
  destruct (Line.resolve pattern) as [c|]; [|by destruct pattern].
  destruct (p_search c (text line)) as [m|]; [done|by destruct pattern].
Qed.

Lemma match_to_dict_text_pattern_raises_witness :
  @Parser.match_to_dict Sample.compile_text (Sample.with_minimal_results false)
    Sample.ethernet0
    ([RPat Sample.interface_pattern]
       ++ RStr "^hostname (?P<hostname>.*$)" :: []) []
  = (Raise (AttributeError "groupindex"), []).
Proof.
  apply (@match_to_dict_text_pattern_raises Sample.compile_text
           (Sample.with_minimal_results false)); reflexivity.
Defined.

Section Collecting.
Context `{ReEngine}.
Import Line Parser.

Implicit Types (self : BaseConfigParser) (line : BaseConfigLine).

Lemma match_step_acc self line entry pattern log :
  match_step self line entry pattern log
  = match match_step self line ∅ pattern log with
    | (Ok d, log') => (Ok (d ∪ entry), log')
    | (Raise e, log') => (Raise e, log')
    end.
Proof.
  destruct (minimal_results self) as [b|] eqn:Hset.
  - rewrite !(match_step_set _ _ _ _ b) by done.
    destruct (step_dict b line pattern) as [d|]; [|done].
    by rewrite (right_id_L ∅ (∪)).
  - unfold match_step. destruct (re_search_all_cases line pattern) as [->|[d ->]].
    + by rewrite !no_match_policy_unset.
    + simpl. unfold mret, Py_ret. by rewrite (right_id_L ∅ (∪)).
Qed.

(** The loop of [match_to_dict] started on an entry gives what it gives
    on the empty dictionary, merged over the entry. *)
Lemma match_loop_acc self line patterns entry log :
  for_each (match_step self line) entry patterns log
  = match for_each (match_step self line) ∅ patterns log with
    | (Ok d, log') => (Ok (d ∪ entry), log')
    | (Raise e, log') => (Raise e, log')
    end.
Proof.
  revert entry log. induction patterns as [|p ps IH]; intros entry log; simpl.
  { unfold mret, Py_ret. by rewrite (left_id_L ∅ (∪)). }
  unfold mbind, Py_bind. rewrite (match_step_acc _ _ entry).
  destruct (match_step self line ∅ p log) as [[d|e] log1]; [|done].
  rewrite (IH (d ∪ entry)), (IH d).
  destruct (for_each (match_step self line) ∅ ps log1) as [[d'|e] log2]; [|done].
  by rewrite (assoc_L (∪)).
Qed.

Lemma captured_none_matches regex flags l :
  truthy (captured regex flags GNone l) = matches regex flags l.
Proof.
  unfold captured, matches, re_search.
  destruct (searched_pattern regex flags) as [p|]; simpl; [|done].
  by destruct (p_search p (text l)) as [m|].
Qed.

Lemma filter_ext_bool {A} (f g : A → bool) (l : list A) :
  (∀ x, f x = g x) → List.filter f l = List.filter g l.
Proof. intros Hfg. induction l as [|x l IH]; simpl; [done|]. by rewrite Hfg, IH. Qed.

(** The lines [find_objects] returns when no group is asked for. *)
Lemma find_objects_lines self regex flags log :
  ∃ log1,
    find_objects self regex flags GNone log
    = (Ok (map OLine (List.filter (matches regex flags) (lines self))),
       log1 ++ [(DEBUG, MatchedLines
                   (length (List.filter (matches regex flags) (lines self)))
                   regex)]).
Proof.
  destruct (find_objects_unfold self regex flags GNone log)
    as (log1 & log2 & -> & ->).
  exists log1.
  by rewrite (filter_ext_bool _ (matches regex flags) _
                (captured_none_matches regex flags)).
Qed.

(** *** Loops that append one result per element *)

Section Collect.
Context {A B C : Type} (g : A → Py B) (w : A → B → C).

Lemma collect_cons (l : list A) acc x log :
  for_each (collect_step g w) acc (x :: l) log
  = match g x log with
    | (Ok e, log1) => for_each (collect_step g w) (acc ++ [w x e]) l log1
    | (Raise e, log1) => (Raise e, log1)
    end.
Proof.
  cbn [for_each]. unfold mbind at 1, Py_bind at 1.
  unfold collect_step at 1. unfold mbind at 1, Py_bind at 1.
  by destruct (g x log) as [[e|e] log1].
Qed.

Lemma collect_length (l : list A) acc log r log' :
  for_each (collect_step g w) acc l log = (Ok r, log') →
  length r = (length acc + length l)%nat.
Proof.
  revert acc log. induction l as [|x l IH]; intros acc log.
  { simpl. intros [= <- _]. lia. }
  rewrite collect_cons. destruct (g x log) as [[e|e] log1]; [|done].
  intros Hrest%IH. rewrite length_app in Hrest. simpl in *. lia.
Qed.

Lemma collect_returns (l : list A) acc log :
  (∀ x log, x ∈ l → ∃ e log', g x log = (Ok e, log')) →
  ∃ r log', for_each (collect_step g w) acc l log = (Ok r, log').
Proof.
  revert acc log. induction l as [|x l IH]; intros acc log Hg.
  { simpl. by do 2 eexists. }
  destruct (Hg x log ltac:(left)) as (e & log1 & Hx).
  rewrite collect_cons, Hx.
  apply IH. intros y log2 Hy. apply Hg. by right.
Qed.

End Collect.

(** Two such loops whose bodies agree, and whose results differ by a map
    on what is appended. *)
Lemma collect_map {A B C D} (g1 g2 : A → Py B) (w1 : A → B → C)
    (w2 : A → B → D) (h : C → D) (l : list A) acc log :
  (∀ x log, x ∈ l → g2 x log = g1 x log) →
  (∀ x e, h (w1 x e) = w2 x e) →
  for_each (collect_step g2 w2) (h <$> acc) l log
  = match for_each (collect_step g1 w1) acc l log with
    | (Ok r, log') => (Ok (h <$> r), log')
    | (Raise e, log') => (Raise e, log')
    end.
Proof.
  intros Hg Hw. revert acc log.
  induction l as [|x l IH]; intros acc log; [done|].
  rewrite !collect_cons, Hg by left.
  destruct (g1 x log) as [[e|e] log1]; [|done].
  rewrite <- Hw. change [h (w1 x e)] with (h <$> [w1 x e]).
  rewrite <- fmap_app. apply IH. intros y log2 Hy. apply Hg. by right.
Qed.

End Collecting.

Section Autoparse.
Context `{ReEngine}.
Import Line Parser.

Implicit Types (self : BaseConfigParser) (line : BaseConfigLine).


Lemma property_autoparse_run self candidate_pattern patterns log :
  ∃ log1,
    property_autoparse self candidate_pattern patterns log
    = let candidates :=
        map OLine (List.filter (matches candidate_pattern MULTILINE) (lines self)) in
      if (length candidates =? 0)%nat then (Ok None, log1)
      else match for_each
                   (collect_step (λ c, match_obj_to_dict self c patterns)
                                 (λ _ e, e)) [] candidates log1 with
           | (Ok r, log') => (Ok (Some r), log')
           | (Raise e, log') => (Raise e, log')
           end.
Proof.
  destruct (find_objects_lines self candidate_pattern MULTILINE log)
    as [log0 Hfind].
  eexists. unfold property_autoparse. rewrite (bind_ok _ _ _ _ _ Hfind).
  cbv zeta.
  destruct (length (map OLine (List.filter (matches candidate_pattern MULTILINE)
                                 (lines self))) =? 0)%nat; [done|].
  unfold mbind at 1, Py_bind at 1.
  change (for_each _ [] ?l ?lg)
    with (for_each (collect_step (λ c, match_obj_to_dict self c patterns)
                                 (λ _ e, e)) [] l lg).
  by destruct (for_each _ _ _ _) as [[r|e] log'].
Qed.

Lemma section_run self parent patterns return_with_line log cands log1 :
  match parent with
  | ParentLine l => mret [OLine l]
  | ParentRegex RNone => raise (UnboundLocalError "candidates")
  | ParentRegex r => find_objects self r MULTILINE GNone
  end log = (Ok cands, log1) →
  section_property_autoparse self parent patterns return_with_line log
  = if (length cands =? 0)%nat then (Ok None, log1)
    else match for_each
                 (collect_step (λ c, section_entry self parent c patterns)
                    (λ c e, if return_with_line then EntryWithLine c e
                            else EntryDict e)) [] cands log1 with
         | (Ok r, log') => (Ok (Some r), log')
         | (Raise e, log') => (Raise e, log')
         end.
Proof.
  intros Hcands. unfold section_property_autoparse.
  rewrite (bind_ok _ _ _ _ _ Hcands).
  destruct (length cands =? 0)%nat; [done|].
  unfold mbind at 1, Py_bind at 1.
  change (for_each _ [] cands log1)
    with (for_each (collect_step (λ c, section_entry self parent c patterns)
                      (λ c e, if return_with_line then EntryWithLine c e
                              else EntryDict e)) [] cands log1).
  by destruct (for_each _ _ _ _) as [[r|e] log'].
Qed.


Lemma for_each_returns {A B} (f : A → B → Py A) (l : list B) a log :
  (∀ a x log, ∃ a' log', f a x log = (Ok a', log')) →
  ∃ a' log', for_each f a l log = (Ok a', log').
Proof.
  intros Hf. revert a log. induction l as [|x l IH]; intros a log; simpl.
  { by do 2 eexists. }
  destruct (Hf a x log) as (a' & log' & Hx).
  rewrite (bind_ok _ _ _ _ _ Hx). apply IH.
Qed.

Lemma child_step_minimal self candidate entry pattern log :
  minimal_results self = Some true →
  ∃ entry' log', child_step self candidate entry pattern log = (Ok entry', log').
Proof.
  intros Hset. unfold child_step.
  pose proof (re_search_children_all candidate pattern) as Hall.
  destruct (re_search_children candidate pattern ALL) as [|u [|u' us]].
  - unfold no_match_policy, get_minimal_results. rewrite Hset. by do 2 eexists.
  - apply Forall_cons in Hall as [[d ->] _]. by do 2 eexists.
  - by do 2 eexists.
Qed.

Lemma section_entry_minimal self parent candidate patterns log :
  minimal_results self = Some true →
  ∃ entry log',
    section_entry self parent (OLine candidate) patterns log = (Ok entry, log').
Proof.
  intros Hset. unfold section_entry.
  assert (∃ entry0,
            match parent with
            | ParentRegex r =>
                d ← match_obj_to_dict self (OLine candidate) [r];
                dict_update ∅ (VDict d)
            | ParentLine _ => mret ∅
            end log = (Ok entry0, log)) as [entry0 Hparent].
  { destruct parent as [l|r]; [by eexists|]. simpl match_obj_to_dict.
    destruct (merged_keys_minimal candidate [r]) as (d & Hd & _).
    eexists. erewrite bind_ok; [|by rewrite (match_to_dict_set _ _ _ true), Hd].
    reflexivity. }
  rewrite (bind_ok _ _ _ _ _ Hparent).
  apply for_each_returns. intros. by apply child_step_minimal.
Qed.

Lemma section_entry_no_patterns self r candidate log :
  section_entry self (ParentRegex r) candidate [] log
  = match_obj_to_dict self candidate [r] log.
Proof.
  unfold section_entry.
  unfold mbind, Py_bind.
  destruct (match_obj_to_dict self candidate [r] log) as [[d|e] log']; [|done].
  simpl. unfold mret, Py_ret. rewrite (right_id_L ∅ (∪)).
  by destruct candidate.
Qed.

End Autoparse.

(** X8: [match_to_dict] composes over concatenation: when it returns [e1]
    on a first list of patterns and [e2] on a second, on the two lists in
    sequence it returns [e2] merged over [e1], so on every key of [e2] the
    second list decides. *)
Theorem match_to_dict_app `{ReEngine} (self : BaseConfigParser)
    (line : BaseConfigLine) (ps1 ps2 : list Regex) (e1 e2 : dict)
    (log log1 log2 : Log) :
  Parser.match_to_dict self line ps1 log = (Ok e1, log1) →
  Parser.match_to_dict self line ps2 log1 = (Ok e2, log2) →
  Parser.match_to_dict self line (ps1 ++ ps2) log = (Ok (e2 ∪ e1), log2)
  ∧ ∀ k, is_Some (e2 !! k) → (e2 ∪ e1) !! k = e2 !! k.
Proof.
  unfold Parser.match_to_dict. intros H1 H2. split.
  - rewrite for_each_app, (bind_ok _ _ _ _ _ H1), match_loop_acc. by rewrite H2.
  - intros k [v Hv]. rewrite Hv. by apply lookup_union_Some_l.
Qed.

Lemma match_to_dict_app_witness :
  let e1 : dict := {[ "name" := Some " Ethernet0/0" ]} in
  let e2 : dict := {[ "name" := Some "face Ethernet0/0" ]} in
  @Parser.match_to_dict Sample.compile_text Sample.parser Sample.ethernet0
    ([RPat Sample.interface_pattern] ++ [RPat Sample.inter_pattern]) []
  = (Ok (e2 ∪ e1), [])
  ∧ ∀ k, is_Some (e2 !! k) → (e2 ∪ e1) !! k = e2 !! k.
Proof.
  apply (@match_to_dict_app Sample.compile_text Sample.parser Sample.ethernet0
           [RPat Sample.interface_pattern] [RPat Sample.inter_pattern]
           {[ "name" := Some " Ethernet0/0" ]}
           {[ "name" := Some "face Ethernet0/0" ]} [] [] []);
    vm_compute; reflexivity.
Defined.

Section Kept.
Context `{ReEngine}.
Import Line Parser.

(** The lines [find_objects] keeps when no group is asked for: those whose
    search result is truthy. *)
Lemma find_objects_kept self regex flags log :
  ∃ log1,
    find_objects self regex flags GNone log
    = (Ok (map OLine
             (List.filter (λ l, truthy (captured regex flags GNone l))
                (lines self))),
       log1 ++ [(DEBUG, MatchedLines
                   (length (List.filter
                              (λ l, truthy (captured regex flags GNone l))
                              (lines self)))
                   regex)]).
Proof.
  destruct (find_objects_unfold self regex flags GNone log)
    as (log1 & log2 & -> & ->).
  by exists log1.
Qed.

Lemma property_autoparse_kept self candidate_pattern patterns log :
  ∃ log1,
    property_autoparse self candidate_pattern patterns log
    = let candidates :=
        map OLine
          (List.filter (λ l, truthy (captured candidate_pattern MULTILINE GNone l))
             (lines self)) in
      if (length candidates =? 0)%nat then (Ok None, log1)
      else match for_each
                   (collect_step (λ c, match_obj_to_dict self c patterns)
                                 (λ _ e, e)) [] candidates log1 with
           | (Ok r, log') => (Ok (Some r), log')
           | (Raise e, log') => (Raise e, log')
           end.
Proof.
  destruct (find_objects_kept self candidate_pattern MULTILINE log)
    as [log0 Hfind].
  eexists. unfold property_autoparse. rewrite (bind_ok _ _ _ _ _ Hfind).
  cbv zeta.
  destruct (length (map OLine _) =? 0)%nat; [done|].
  unfold mbind at 1, Py_bind at 1.
  change (for_each _ [] ?l ?lg)
    with (for_each (collect_step (λ c, match_obj_to_dict self c patterns)
                                 (λ _ e, e)) [] l lg).
  by destruct (for_each _ _ _ _) as [[r|e] log'].
Qed.

End Kept.


(** X10: when [property_autoparse] returns, it returns [None] if
    [find_objects] kept no line for the candidate pattern, that is if the
    result of the search is truthy on no line, and otherwise a list with
    one dictionary for each line kept; it never returns an empty list. *)
Theorem property_autoparse_one_per_candidate `{ReEngine} (self : BaseConfigParser)
    (candidate_pattern : Regex) (patterns : list Regex)
    (log log' : Log) (result : option (list dict)) :
  Parser.property_autoparse self candidate_pattern patterns log
  = (Ok result, log') →
  let kept :=
    List.filter (λ l, truthy (captured candidate_pattern MULTILINE GNone l))
      (lines self) in
  match result with
  | None => kept = []
  | Some properties => properties ≠ [] ∧ length properties = length kept
  end.
Proof.
  destruct (property_autoparse_kept self candidate_pattern patterns log)
    as [log1 ->].
  cbv zeta.
  set (cands := List.filter _ (lines self)).
  destruct (Nat.eqb_spec (length (map OLine cands)) 0) as [Hlen|Hlen];
    rewrite length_map in Hlen.
  { intros [= <- _]. by apply length_zero_iff_nil. }
  match goal with |- context [for_each ?f ?a ?l ?lg] =>
    destruct (for_each f a l lg) as [[r|e] log2] eqn:Hloop end; [|done].
  intros [= <- _]. apply collect_length in Hloop.
  rewrite length_map in Hloop. simpl in Hloop.
  split; [|done]. destruct r; [simpl in Hloop; lia|done].
Qed.

Lemma property_autoparse_one_per_candidate_witness :
  let kept :=
    List.filter
      (λ l, truthy (@captured Sample.compile_text
                      (RPat Sample.interface_pattern) MULTILINE GNone l))
      (lines Sample.parser) in
  match Some ([∅; ∅; ∅] : list dict) with
  | None => kept = []
  | Some properties => properties ≠ [] ∧ length properties = length kept
  end.
Proof.
  apply (@property_autoparse_one_per_candidate Sample.compile_text
           (Sample.with_minimal_results true) (RPat Sample.interface_pattern)
           [RPat Sample.hostname_pattern] []
           [(DEBUG, MatchedLines 3 (RPat Sample.interface_pattern))]
           (Some ([∅; ∅; ∅] : list dict))).
  vm_compute. reflexivity.
Defined.

(** X11: with the minimal-results option on, [section_property_autoparse]
    on a line or a pattern never raises; it returns [None] when there is no
    parent candidate and otherwise one entry for each candidate. *)
Theorem section_property_autoparse_minimal `{ReEngine} (self : BaseConfigParser)
    (parent : Parent) (patterns : list Regex) (return_with_line : bool)
    (log : Log) :
  minimal_results self = Some true →
  parent ≠ ParentRegex RNone →
  ∃ result log',
    Parser.section_property_autoparse self parent patterns return_with_line log
    = (Ok result, log')
    ∧ match result with
      | None => parent_candidates self parent = []
      | Some entries =>
          entries ≠ []
          ∧ length entries = length (parent_candidates self parent)
      end.
Proof.
  intros Hset Hparent.
  destruct (section_candidates self parent log Hparent) as [log1 Hcands].
  rewrite (section_run _ _ _ _ _ _ _ Hcands), length_map.
  destruct (parent_candidates self parent) as [|c cs] eqn:Hcs.
  { by exists None, log1. }
  cbn [length Nat.eqb].
  match goal with |- context [for_each ?f [] ?l log1] =>
    destruct (collect_returns (λ c, Parser.section_entry self parent c patterns)
                (λ c e, if return_with_line then EntryWithLine c e
                        else EntryDict e) l [] log1) as (r & log' & Hloop) end.
  - intros x log2 (c' & -> & _)%list_elem_of_fmap.
    by apply section_entry_minimal.
  - rewrite Hloop. exists (Some r), log'. split; [done|].
    apply collect_length in Hloop. rewrite length_map in Hloop.
    simpl in Hloop. split; [by destruct r|done].
Qed.

Lemma section_property_autoparse_minimal_witness :
  ∃ result log',
    @Parser.section_property_autoparse Sample.compile_text
      (Sample.with_minimal_results true)
      (ParentRegex (RStr "^interface(?P<name>.*$)"))
      [RPat Sample.ip_pattern; RStr "("] true []
    = (Ok result, log')
    ∧ match result with
      | None =>
          @parent_candidates Sample.compile_text
            (Sample.with_minimal_results true)
            (ParentRegex (RStr "^interface(?P<name>.*$)")) = []
      | Some entries =>
          entries ≠ []
          ∧ length entries
            = length (@parent_candidates Sample.compile_text
                        (Sample.with_minimal_results true)
                        (ParentRegex (RStr "^interface(?P<name>.*$)")))
      end.
Proof.
  apply (@section_property_autoparse_minimal Sample.compile_text
           (Sample.with_minimal_results true)); [reflexivity|discriminate].
Defined.


(** X13: with no child patterns, [section_property_autoparse] on a pattern
    [r] returns the dictionaries that [property_autoparse] returns for the
    candidate pattern [r] and the patterns [[r]], and logs the same. *)
Theorem section_without_patterns `{ReEngine} (self : BaseConfigParser)
    (r : Regex) (log : Log) :
  r ≠ RNone →
  Parser.section_property_autoparse self (ParentRegex r) [] false log
  = match Parser.property_autoparse self r [r] log with
    | (Ok result, log') => (Ok (fmap (M:=option) (fmap (M:=list) EntryDict) result), log')
    | (Raise e, log') => (Raise e, log')
    end.
Proof.
  intros Hr.
  destruct (find_objects_lines self r MULTILINE log) as [log1 Hfind].
  assert (match ParentRegex r with
          | ParentLine l => mret [OLine l]
          | ParentRegex RNone => raise (UnboundLocalError "candidates")
          | ParentRegex r => Parser.find_objects self r MULTILINE GNone
          end log = Parser.find_objects self r MULTILINE GNone log) as Hsame
    by (by destruct r).
  rewrite Hfind in Hsame.
  rewrite (section_run self (ParentRegex r) [] false log _ _ Hsame).
  unfold Parser.property_autoparse. rewrite (bind_ok _ _ _ _ _ Hfind).
  destruct (length _ =? 0)%nat; [done|].
  unfold mbind at 1, Py_bind at 1.
  change (for_each _ [] ?l ?lg)
    with (for_each (collect_step (λ c, Parser.match_obj_to_dict self c [r])
                                 (λ _ e, e)) [] l lg) at 2.
  change (@nil Entry) with (EntryDict <$> (@nil dict)).
  rewrite (collect_map
             (λ c, Parser.match_obj_to_dict self c [r])
             (λ c, Parser.section_entry self (ParentRegex r) c [])
             (λ _ e, e) (λ c e, EntryDict e) EntryDict);
    [|intros; apply section_entry_no_patterns|done].
  by destruct (for_each _ _ _ _) as [[res|e] log'].
Qed.

Lemma section_without_patterns_witness :
  @Parser.section_property_autoparse Sample.compile_text Sample.parser
    (ParentRegex (RPat Sample.interface_pattern)) [] false []
  = match @Parser.property_autoparse Sample.compile_text Sample.parser
            (RPat Sample.interface_pattern) [RPat Sample.interface_pattern] [] with
    | (Ok result, log') => (Ok (fmap (M:=option) (fmap (M:=list) EntryDict) result), log')
    | (Raise e, log') => (Raise e, log')
    end.
Proof.
  apply (@section_without_patterns Sample.compile_text Sample.parser
           (RPat Sample.interface_pattern) []).
  discriminate.
Defined.

(** ** More on the section resolver *)

Section Walk.
Context `{ReEngine}.
Import Line Parser.

Lemma walk_outcome (start : list BaseConfigLine) (parents : list Regex) log :
  match candidates_after start parents with
  | Some s => section_walk start parents log = (Ok s, log)
  | None =>
      ∃ msg, (msg = NoParents ∨ msg = MultipleParents)
             ∧ section_walk start parents log = (Ok [], log ++ [(ERROR, msg)])
  end.
Proof.
  revert start. induction parents as [|p ps IH]; intros start; simpl; [done|].
  fold (matching_parents start p).
  destruct (matching_parents start p) as [|x [|y l]]; simpl.
  - exists NoParents. by split; [left|].
  - apply IH.
  - exists MultipleParents. by split; [right|].
Qed.

Lemma walk_app (start : list BaseConfigLine) (ps qs : list Regex) log :
  section_walk start (ps ++ qs) log
  = match candidates_after start ps with
    | Some s => section_walk s qs log
    | None => section_walk start ps log
    end.
Proof.
  revert start. induction ps as [|p ps IH]; intros start; simpl; [done|].
  fold (matching_parents start p).
  destruct (matching_parents start p) as [|x [|y l]]; simpl; [done| |done].
  apply IH.
Qed.

End Walk.

(** X14: [get_section_by_parents] never raises.  Either every pattern
    singled out one parent, and it logs nothing and returns the candidates
    the chain leads to; or it returns the empty list and appends exactly
    one ERROR entry, saying whether no line or several lines matched. *)
Theorem get_section_by_parents_outcome `{ReEngine} (self : BaseConfigParser)
    (parents : list Regex) (log : Log) :
  (∃ section, candidates_after (lines self) parents = Some section
              ∧ Parser.get_section_by_parents self parents log
                = (Ok section, log))
  ∨ (candidates_after (lines self) parents = None
     ∧ ∃ msg, (msg = NoParents ∨ msg = MultipleParents)
              ∧ Parser.get_section_by_parents self parents log
                = (Ok [], log ++ [(ERROR, msg)])).
Proof.
  unfold Parser.get_section_by_parents.
  pose proof (walk_outcome (lines self) parents log) as Hout.
  destruct (candidates_after (lines self) parents) as [s|].
  - left. by exists s.
  - right. by split.
Qed.

(** X15: once a pattern of the chain has failed, the patterns after it are
    not consulted: when the call on [ps] logged an error, the call on [ps]
    followed by any [qs] returns and logs the same. *)
Theorem get_section_by_parents_failed_prefix `{ReEngine} (self : BaseConfigParser)
    (ps qs : list Regex) (log : Log) :
  (Parser.get_section_by_parents self ps log).2 ≠ log →
  Parser.get_section_by_parents self (ps ++ qs) log
  = Parser.get_section_by_parents self ps log.
Proof.
  unfold Parser.get_section_by_parents. intros Hlogged. rewrite walk_app.
  pose proof (walk_outcome (lines self) ps log) as Hout.
  destruct (candidates_after (lines self) ps) as [s|]; [|done].
  by rewrite Hout in Hlogged.
Qed.

Lemma get_section_by_parents_failed_prefix_witness :
  @Parser.get_section_by_parents Sample.compile_text Sample.parser
    ([RPat Sample.interface_pattern] ++ [RPat Sample.indented_pattern]) []
  = @Parser.get_section_by_parents Sample.compile_text Sample.parser
      [RPat Sample.interface_pattern] [].
Proof.
  apply (@get_section_by_parents_failed_prefix Sample.compile_text
           Sample.parser [RPat Sample.interface_pattern]
           [RPat Sample.indented_pattern] []).
  vm_compute. discriminate.
Defined.

(** ** The methods that assign attributes *)

Section SetupLemmas.
Context `{ReEngine}.
Import Setup.

Lemma method_bind_returned {A B} (m : Method A) (f : A → Method B)
    self log a self' log' :
  m self log = (Returned a, self', log') → (m ≫= f) self log = f a self' log'.
Proof. unfold mbind, Method_bind. by intros ->. Qed.

Lemma method_bind_raised {A B} (m : Method A) (f : A → Method B)
    self log e self' log' :
  m self log = (Raised e, self', log') →
  (m ≫= f) self log = (Raised e, self', log').
Proof. unfold mbind, Method_bind. by intros ->. Qed.

(** The first iteration of the loop evaluates [all_lines]. *)
Lemma clean_loop_raises first_regex last_regex i rest self log :
  clean_loop first_regex last_regex (i :: rest) None None self log
  = (Raised (NameError "all_lines"), self, log).
Proof. reflexivity. Qed.

End SetupLemmas.

(** X16: [_get_clean_config] cannot trim a configuration.  When both
    patterns compile, on a parser whose [config_lines_str] has at least one
    line it raises [NameError] for the unbound name [all_lines], leaving the
    parser as it was; on an empty [config_lines_str] it assigns the empty
    list and logs that no valid config was found; when [config_lines_str]
    was never assigned it raises [AttributeError]. *)
Theorem get_clean_config_outcome `{ReEngine} (self : BaseConfigParser)
    (first_line_regex last_line_regex : string) (p1 p2 : Pattern)
    (log : SetupLog) :
  re_compile first_line_regex MULTILINE = Some p1 →
  re_compile last_line_regex MULTILINE = Some p2 →
  Setup._get_clean_config first_line_regex last_line_regex self log
  = match config_lines_str self with
    | None =>
        (Raised (Builtin (AttributeError "config_lines_str")), self,
         log ++ [(DEBUG, CleaningConfig)])
    | Some [] =>
        (Returned tt, with_config_lines_str self [],
         log ++ [(DEBUG, CleaningConfig); (ERROR, NoValidConfig)])
    | Some (_ :: _) =>
        (Raised (NameError "all_lines"), self, log ++ [(DEBUG, CleaningConfig)])
    end.
Proof.
  intros Hp1 Hp2. unfold Setup._get_clean_config, Setup.compile.
  rewrite Hp1, Hp2.
  unfold mbind at 1, Method_bind at 1, log_setup at 1.
  unfold mbind at 1, Method_bind at 1, mret at 1, Method_ret at 1.
  unfold mbind at 1, Method_bind at 1, mret at 1, Method_ret at 1.
  unfold mbind at 1, Method_bind at 1, get_config_lines_str at 1.
  destruct (config_lines_str self) as [[|l ls]|] eqn:Hcfg; [| |done].
  - simpl. unfold mbind, Method_bind, mret, Method_ret, set_config_lines_str,
      log_setup. simpl. by rewrite <- app_assoc.
  - cbn [length seq]. unfold mbind at 1, Method_bind at 1.
    by rewrite clean_loop_raises.
Qed.

Lemma get_clean_config_outcome_witness :
  @Setup._get_clean_config Sample.compile_text "^interface(?P<name>.*$)"
    "^hostname (?P<hostname>.*$)" Sample.parser []
  = match config_lines_str Sample.parser with
    | None =>
        (Raised (Builtin (AttributeError "config_lines_str")), Sample.parser,
         [] ++ [(DEBUG, CleaningConfig)])
    | Some [] =>
        (Returned tt, with_config_lines_str Sample.parser [],
         [] ++ [(DEBUG, CleaningConfig); (ERROR, NoValidConfig)])
    | Some (_ :: _) =>
        (Raised (NameError "all_lines"), Sample.parser,
         [] ++ [(DEBUG, CleaningConfig)])
    end.
Proof.
  apply (@get_clean_config_outcome Sample.compile_text Sample.parser
           "^interface(?P<name>.*$)" "^hostname (?P<hostname>.*$)"
           Sample.interface_pattern Sample.hostname_pattern []);
    reflexivity.
Defined.

Section BuildLemmas.
Context `{ReEngine} `{FileSystem} `{Environment}.
Import Setup Build.

Implicit Types (self : BaseConfigParser) (config : list string).

Lemma with_lines_id self : with_lines self (lines self ++ []) = self.
Proof. destruct self. unfold with_lines. simpl. by rewrite app_nil_r. Qed.

Lemma with_lines_app self x (l : list BaseConfigLine) :
  with_lines (with_lines self (lines self ++ [x]))
    (lines (with_lines self (lines self ++ [x])) ++ l)
  = with_lines self (lines self ++ x :: l).
Proof. unfold with_lines. simpl. by rewrite <- app_assoc. Qed.

Lemma create_line_run config pattern n t self log :
  re_compile interface_regex MULTILINE = Some pattern →
  create_line config (n, t) self log
  = if bool_decide (is_Some (p_match pattern t)) && negb interface_line_class
    then (Raised (Builtin (AttributeError "INTERFACE_LINE_CLASS")), self, log)
    else (Returned tt,
          with_lines self (lines self ++ [line_object config n t]), log).
Proof.
  intros Hcompile. unfold create_line, match_interface, compile.
  rewrite Hcompile. unfold mbind, Method_bind, mret, Method_ret.
  destruct (bool_decide (is_Some (p_match pattern t))); [|done].
  unfold get_INTERFACE_LINE_CLASS. by destruct interface_line_class.
Qed.

(** The loop over the lines with the pattern compiled: it appends the
    objects of all lines, or those of the lines before the first interface
    line when the interface line class is not there to build the next. *)
Lemma create_loop_run config pattern (pairs : list (nat * string)) self log :
  re_compile interface_regex MULTILINE = Some pattern →
  for_lines (create_line config) pairs self log
  = (if interface_line_class || negb (has_interface pattern pairs)
     then Returned tt
     else Raised (Builtin (AttributeError "INTERFACE_LINE_CLASS")),
     with_lines self
       (lines self ++ map (object_of config)
          (if interface_line_class then pairs else plain_prefix pattern pairs)),
     log).
Proof.
  intros Hcompile. revert self.
  induction pairs as [|[n t] pairs IH]; intros self.
  { destruct interface_line_class; cbn [for_lines plain_prefix map orb];
      by rewrite with_lines_id. }
  cbn [for_lines]. unfold mbind at 1, Method_bind at 1.
  rewrite (create_line_run _ pattern) by done.
  cbn [plain_prefix has_interface existsb snd].
  destruct (bool_decide (is_Some (p_match pattern t))) eqn:Ht,
    interface_line_class eqn:Hclass; cbn [andb negb orb map];
    rewrite ?IH, ?Hclass, ?with_lines_app; cbn [orb negb];
    rewrite ?with_lines_id; reflexivity.
Qed.

(** The loop in general: what it returns or raises and what it appends
    do not depend on the parser it starts from; it appends the objects of
    the first [k] lines, and of all of them when it returns. *)
Lemma create_loop_frame config (pairs : list (nat * string)) :
  ∃ outcome k,
    (outcome = Returned tt → k = length pairs)
    ∧ ∀ self log,
        for_lines (create_line config) pairs self log
        = (outcome,
           with_lines self (lines self ++ map (object_of config) (take k pairs)),
           log).
Proof.
  destruct (re_compile interface_regex MULTILINE) as [pattern|] eqn:Hcompile.
  - exists (if interface_line_class || negb (has_interface pattern pairs)
            then Returned tt
            else Raised (Builtin (AttributeError "INTERFACE_LINE_CLASS"))),
      (length (if interface_line_class then pairs
               else plain_prefix pattern pairs)).
    assert (∀ l, take (length (plain_prefix pattern l)) l = plain_prefix pattern l)
      as Htake.
    { induction l as [|nt l IHl]; simpl; [done|].
      destruct (bool_decide _); simpl; [done|]. by rewrite IHl. }
    assert (∀ l, has_interface pattern l = false → plain_prefix pattern l = l)
      as Hall.
    { induction l as [|nt l IHl]; simpl; [done|].
      intros [Hnt Hl]%orb_false_elim. rewrite Hnt. by rewrite IHl. }
    split.
    + destruct interface_line_class; [done|]. simpl.
      destruct (has_interface pattern pairs) eqn:Hany; simpl; [done|].
      by rewrite Hall.
    + intros self log. rewrite (create_loop_run _ pattern) by done.
      destruct interface_line_class; [by rewrite firstn_all|by rewrite Htake].
  - destruct pairs as [|[n t] pairs].
    + exists (Returned tt), 0%nat. split; [done|]. intros self log. simpl.
      by rewrite with_lines_id.
    + exists (Raised (ReError interface_regex)), 0%nat. split; [done|].
      intros self log. cbn [for_lines]. unfold mbind at 1, Method_bind at 1.
      assert (create_line config (n, t) self log
              = (Raised (ReError interface_regex), self, log)) as ->.
      { unfold create_line, match_interface, compile. by rewrite Hcompile. }
      cbn [take map]. by rewrite with_lines_id.
Qed.

Lemma create_objects_run config self log outcome k :
  config_lines_str self = Some config →
  (∀ self log,
      for_lines (create_line config) (imap pair config) self log
      = (outcome,
         with_lines self
           (lines self ++ map (object_of config) (take k (imap pair config))),
         log)) →
  _create_cfg_line_objects self log
  = let self' :=
      with_lines self
        (lines self ++ map (object_of config) (take k (imap pair config))) in
    match outcome with
    | Returned _ =>
        (Returned tt, self', log ++ [(DEBUG, CreatedObjects (length (lines self')))])
    | Raised e => (Raised e, self', log)
    end.
Proof.
  intros Hconfig Hloop. unfold _create_cfg_line_objects.
  unfold mbind at 1, Method_bind at 1, get_config_lines_str at 1.
  rewrite Hconfig. unfold mbind at 1, Method_bind at 1. rewrite Hloop.
  by destruct outcome as [[]|e].
Qed.

Lemma objects_imap config :
  map (object_of config) (imap pair config) = imap (line_object config) config.
Proof.
  apply list_eq. intros i.
  rewrite list_lookup_fmap, !list_lookup_imap.
  by destruct (config !! i).
Qed.

End BuildLemmas.

(** X17: when the class of the parser defines [INTERFACE_LINE_CLASS], or
    no line matches [^interface\s\S+], [_create_cfg_line_objects] appends
    to [self.lines] one object for each line of [config_lines_str], in
    order, numbered from 0 whatever [self.lines] held before and carrying
    the text of its line, and logs the new length of [self.lines]. *)
Theorem create_cfg_line_objects_appends `{ReEngine} `{Environment}
    (self : BaseConfigParser) (config : list string) (pattern : Pattern)
    (log : SetupLog) :
  config_lines_str self = Some config →
  re_compile interface_regex MULTILINE = Some pattern →
  interface_line_class || negb (has_interface pattern (imap pair config)) = true →
  ∃ self',
    Build._create_cfg_line_objects self log
    = (Returned tt, self',
       log ++ [(DEBUG, CreatedObjects (length (lines self) + length config))])
    ∧ lines self' = lines self ++ imap (Build.line_object config) config
    ∧ ∀ i line, config !! i = Some line →
        ∃ object, lines self' !! (length (lines self) + i)%nat = Some object
                  ∧ number object = i ∧ text object = line.
Proof.
  intros Hconfig Hcompile Hplain.
  assert (∀ self log,
            for_lines (Build.create_line config) (imap pair config) self log
            = (Returned tt,
               with_lines self
                 (lines self ++ map (Build.object_of config)
                    (take (length (imap pair config)) (imap pair config))),
               log)) as Hloop.
  { intros self0 log0. rewrite (create_loop_run _ pattern) by done.
    rewrite Hplain, firstn_all.
    destruct interface_line_class eqn:Hclass; [done|].
    simpl in Hplain. apply negb_true_iff in Hplain.
    assert (∀ l, has_interface pattern l = false → plain_prefix pattern l = l)
      as Hall; [|by rewrite Hall].
    induction l as [|nt l IHl]; simpl; [done|].
    intros [Hnt Hl]%orb_false_elim. rewrite Hnt. by rewrite IHl. }
  rewrite (create_objects_run config self log _ _ Hconfig Hloop).
  cbv zeta. rewrite firstn_all, objects_imap. eexists. split; [|split].
  - simpl. by rewrite length_app, length_imap.
  - reflexivity.
  - intros i line Hline. simpl.
    rewrite lookup_app_r, Nat.add_comm, Nat.add_sub by lia.
    rewrite list_lookup_imap, Hline. simpl. by eexists.
Qed.

Lemma create_cfg_line_objects_appends_witness :
  let self := with_config_lines_str (SampleSetup.fresh SampleSetup.plain_text)
                SampleSetup.plain_text in
  ∃ self',
    @Build._create_cfg_line_objects SampleSetup.compile_text
      SampleSetup.base_class self []
    = (Returned tt, self',
       [] ++ [(DEBUG, CreatedObjects
                 (length (lines self) + length SampleSetup.plain_text))])
    ∧ lines self'
      = lines self
        ++ imap (@Build.line_object SampleSetup.base_class SampleSetup.plain_text)
             SampleSetup.plain_text
    ∧ ∀ i line, SampleSetup.plain_text !! i = Some line →
        ∃ object, lines self' !! (length (lines self) + i)%nat = Some object
                  ∧ number object = i ∧ text object = line.
Proof.
  apply (@create_cfg_line_objects_appends SampleSetup.compile_text
           SampleSetup.base_class
           (with_config_lines_str (SampleSetup.fresh SampleSetup.plain_text)
              SampleSetup.plain_text)
           SampleSetup.plain_text SampleSetup.interface_line_pattern []);
    reflexivity.
Defined.

(** X18: on [BaseConfigParser] itself, which defines no
    [INTERFACE_LINE_CLASS], a configuration with a line that matches
    [^interface\s\S+] makes [_create_cfg_line_objects] raise
    [AttributeError]; the objects of the lines before that line stay
    appended to [self.lines], and nothing is logged. *)
Theorem create_cfg_line_objects_interface `{ReEngine} `{Environment}
    (self : BaseConfigParser) (config : list string) (pattern : Pattern)
    (log : SetupLog) :
  config_lines_str self = Some config →
  re_compile interface_regex MULTILINE = Some pattern →
  interface_line_class = false →
  has_interface pattern (imap pair config) = true →
  Build._create_cfg_line_objects self log
  = (Raised (Builtin (AttributeError "INTERFACE_LINE_CLASS")),
     with_lines self
       (lines self ++ map (Build.object_of config)
          (plain_prefix pattern (imap pair config))),
     log).
Proof.
  intros Hconfig Hcompile Hclass Hany.
  unfold Build._create_cfg_line_objects.
  unfold mbind at 1, Method_bind at 1, get_config_lines_str at 1.
  rewrite Hconfig. unfold mbind at 1, Method_bind at 1.
  rewrite (create_loop_run _ pattern) by done. by rewrite Hclass, Hany.
Qed.

Lemma create_cfg_line_objects_interface_witness :
  let config := ["hostname A"; "interface Ethernet0/0"; " shutdown"] in
  let self := with_config_lines_str (SampleSetup.fresh config) config in
  @Build._create_cfg_line_objects SampleSetup.compile_text
    SampleSetup.base_class self []
  = (Raised (Builtin (AttributeError "INTERFACE_LINE_CLASS")),
     with_lines self
       (lines self ++ map (@Build.object_of SampleSetup.base_class config)
          (plain_prefix SampleSetup.interface_line_pattern (imap pair config))),
     []).
Proof.
  apply (@create_cfg_line_objects_interface SampleSetup.compile_text
           SampleSetup.base_class); reflexivity.
Defined.

(** X19: [parse] does not start from an empty [self.lines]: when a call
    of [parse] returns, having appended the objects [created], a second
    call on the same parser returns too and appends the same objects
    again. *)
Theorem parse_twice_appends `{ReEngine} `{Environment}
    (self self1 : BaseConfigParser) (log log1 : SetupLog) :
  Build.parse self log = (Returned tt, self1, log1) →
  ∃ created self2 log2,
    lines self1 = lines self ++ created
    ∧ Build.parse self1 log1 = (Returned tt, self2, log2)
    ∧ lines self2 = lines self ++ created ++ created.
Proof.
  unfold Build.parse. unfold mbind at 1 3, Method_bind at 1 3.
  unfold Build.load_config at 1.
  destruct (load_text (_config self)) as [[raw|e] entries] eqn:Hload; [|done].
  unfold mbind at 1, Method_bind at 1, set_config_lines_str at 1.
  destruct (create_loop_frame raw (imap pair raw)) as (outcome & k & _ & Hloop).
  rewrite (create_objects_run raw (with_config_lines_str self raw) _ outcome k
             eq_refl Hloop). cbv zeta.
  destruct outcome as [[]|e]; [|done]. intros [= <- <-].
  eexists _, _, _. split; [reflexivity|].
  unfold Build.load_config at 1. cbn [_config with_lines with_config_lines_str].
  rewrite Hload.
  unfold mbind at 1, Method_bind at 1, set_config_lines_str at 1.
  match goal with |- context [Build._create_cfg_line_objects ?s ?l] =>
    rewrite (create_objects_run raw s l (Returned tt) k eq_refl Hloop) end.
  cbv zeta. split; [reflexivity|]. simpl. by rewrite <- app_assoc.
Qed.

Lemma parse_twice_appends_witness :
  ∃ created self2 log2,
    [ConfigLine 0 "hostname A" []; ConfigLine 1 "end" []]
    = lines (SampleSetup.fresh SampleSetup.plain_text) ++ created
    ∧ @Build.parse SampleSetup.compile_text SampleSetup.base_class
        (with_lines
           (with_config_lines_str (SampleSetup.fresh SampleSetup.plain_text)
              SampleSetup.plain_text)
           [ConfigLine 0 "hostname A" []; ConfigLine 1 "end" []])
        [(DEBUG, CreatedObjects 2)]
      = (Returned tt, self2, log2)
    ∧ lines self2
      = lines (SampleSetup.fresh SampleSetup.plain_text) ++ created ++ created.
Proof.
  apply (@parse_twice_appends SampleSetup.compile_text SampleSetup.base_class
           (SampleSetup.fresh SampleSetup.plain_text)
           (with_lines
              (with_config_lines_str (SampleSetup.fresh SampleSetup.plain_text)
                 SampleSetup.plain_text)
              [ConfigLine 0 "hostname A" []; ConfigLine 1 "end" []])
           [] [(DEBUG, CreatedObjects 2)]).
  reflexivity.
Defined.

(** X20: [_check_path] rejects a path only when it does not exist: a path
    that exists and is not a regular file, a directory say, is returned
    all the same, after an ERROR entry saying that it is not a file and a
    DEBUG entry saying that it is an existing file. *)
Theorem check_path_accepts_non_file `{FileSystem} (self : BaseConfigParser)
    (filepath : string) (log : SetupLog) :
  path_exists (resolve_path filepath) = true →
  is_file (resolve_path filepath) = false →
  ∃ path,
    Build._check_path filepath self log
    = (Returned (Some path), self,
       log ++ [(ERROR, PathIsNotAFile filepath);
               (DEBUG, PathIsExistingFile filepath)])
    ∧ (path = resolve_path filepath
       ∨ path = resolve_path (resolve_path filepath)).
Proof.
  intros Hexists Hfile. unfold Build._check_path. rewrite Hexists, Hfile.
  cbn [negb]. unfold mbind at 1, Method_bind at 1, log_setup at 1.
  destruct (is_absolute (resolve_path filepath)); simpl;
    unfold mbind, Method_bind, log_setup, mret, Method_ret;
    rewrite <- app_assoc; eexists; (split; [reflexivity|auto]).
Qed.

Lemma check_path_accepts_non_file_witness :
  ∃ path,
    @Build._check_path SampleSetup.files "/etc" (SampleSetup.fresh []) []
    = (Returned (Some path), SampleSetup.fresh [],
       [] ++ [(ERROR, PathIsNotAFile "/etc");
              (DEBUG, PathIsExistingFile "/etc")])
    ∧ (path = @resolve_path SampleSetup.files "/etc"
       ∨ path = @resolve_path SampleSetup.files
                  (@resolve_path SampleSetup.files "/etc")).
Proof.
  apply (@check_path_accepts_non_file SampleSetup.files (SampleSetup.fresh [])
           "/etc" []); reflexivity.
Defined.

(** ** Ambiguous children in the log *)

Section Warned.
Context `{ReEngine}.
Import Line Parser.

Implicit Types (self : BaseConfigParser) (candidate : BaseConfigLine).

Lemma appends_trace {A} (m : Py A) log r log' :
  appends m → m log = (r, log') →
  ∃ w, log' = log ++ w ∧ ∀ log2, m log2 = (r, log2 ++ w).
Proof.
  intros (r0 & w & Hm) Hrun. rewrite Hm in Hrun. injection Hrun as <- <-.
  by exists w.
Qed.

Lemma appends_match_step self line entry pattern :
  appends (match_step self line entry pattern).
Proof.
  unfold match_step. destruct (re_search line pattern ALL);
    first [apply appends_no_match_policy | apply appends_dict_update].
Qed.

Lemma appends_match_obj_to_dict self o patterns :
  appends (match_obj_to_dict self o patterns).
Proof.
  destruct o as [l|v]; simpl; [|apply appends_raise].
  apply appends_for_each. intros. apply appends_match_step.
Qed.

Lemma appends_parent_entry self parent o :
  appends (match parent with
           | ParentRegex r =>
               d ← match_obj_to_dict self o [r]; dict_update ∅ (VDict d)
           | ParentLine _ => mret ∅
           end).
Proof.
  destruct parent as [l|r]; [apply appends_ret|].
  apply appends_bind; [apply appends_match_obj_to_dict|].
  intros d. apply appends_dict_update.
Qed.

Lemma appends_section_entry self parent o patterns :
  appends (section_entry self parent o patterns).
Proof.
  unfold section_entry. apply appends_bind; [apply appends_parent_entry|].
  intros entry. destruct o as [c|v].
  - apply appends_for_each. intros. apply appends_child_step.
  - destruct patterns; [apply appends_ret|apply appends_raise].
Qed.

Lemma appends_collect {A B C} (g : A → Py B) (w : A → B → C) (l : list A) acc :
  (∀ x, appends (g x)) → appends (for_each (collect_step g w) acc l).
Proof.
  intros Hg. apply appends_for_each. intros a x. unfold collect_step.
  apply appends_bind; [apply Hg|]. intros e. apply appends_ret.
Qed.

Lemma collect_prefix {A B C} (g : A → Py B) (w : A → B → C) (l : list A)
    acc log r log' :
  for_each (collect_step g w) acc l log = (Ok r, log') →
  ∃ more, r = acc ++ more.
Proof.
  revert acc log. induction l as [|x l IH]; intros acc log.
  { simpl. intros [= <- _]. exists []. by rewrite app_nil_r. }
  rewrite collect_cons. destruct (g x log) as [[e|e] log1]; [|done].
  intros (more & ->)%IH. exists (w x e :: more). by rewrite <- app_assoc.
Qed.

(** What a returning loop appended for the element at index [j], and
    where in the log. *)
Lemma collect_trace {A B C} (g : A → Py B) (w : A → B → C) (l : list A)
    acc log r log' j x :
  (∀ x, appends (g x)) →
  for_each (collect_step g w) acc l log = (Ok r, log') →
  l !! j = Some x →
  ∃ e wpre wj wpost,
    r !! (length acc + j)%nat = Some (w x e)
    ∧ (∀ log2, g x log2 = (Ok e, log2 ++ wj))
    ∧ log' = log ++ wpre ++ wj ++ wpost.
Proof.
  intros Hg. revert acc log j.
  induction l as [|x0 l IH]; intros acc log j Hrun Hj; [done|].
  rewrite collect_cons in Hrun.
  destruct (g x0 log) as [[e0|e0] log1] eqn:Hx0; [|done].
  destruct (appends_trace _ _ _ _ (Hg x0) Hx0) as (w0 & -> & Hw0).
  destruct j as [|j]; simpl in Hj.
  - injection Hj as <-.
    destruct (collect_prefix _ _ _ _ _ _ _ Hrun) as (more & ->).
    destruct (appends_trace _ _ _ _ (appends_collect g w l _ Hg) Hrun)
      as (wpost & -> & _).
    exists e0, [], w0, wpost. split; [|split; [done|]].
    + rewrite Nat.add_0_r, <- app_assoc. by rewrite lookup_app_r, Nat.sub_diag.
    + by rewrite <- app_assoc.
  - destruct (IH _ _ _ Hrun Hj) as (e & wpre & wj & wpost & Hr & Hgx & ->).
    exists e, (w0 ++ wpre), wj, wpost. split; [|split; [done|]].
    + rewrite length_app in Hr. simpl in Hr.
      by replace (length acc + S j)%nat with (length acc + 1 + j)%nat by lia.
    + by rewrite <- !app_assoc.
Qed.

(** The dictionary and the log of one parent candidate, with and without
    a pattern that is ambiguous on it. *)
Lemma section_entry_split self parent candidate before pattern rest log :
  (2 <= length (matching_children candidate pattern))%nat →
  let run patterns := section_entry self parent (OLine candidate) patterns log in
  let reached := returned (run before).1 in
  ∃ result w1 w2,
    run (before ++ rest) = (result, log ++ w1 ++ w2)
    ∧ run (before ++ pattern :: rest)
      = (result,
         log ++ w1
         ++ (if reached then [(WARNING, MultipleUpdates pattern candidate)]
             else [])
         ++ w2)
    ∧ (returned result = true → reached = true).
Proof.
  intros Hamb. cbv zeta. unfold section_entry.
  destruct (appends_parent_entry self parent (OLine candidate))
    as (rp & wp & Hparent).
  destruct rp as [e0|e].
  2:{ exists (Raise e), wp, [].
      rewrite !(bind_raise _ _ _ _ _ (Hparent log)). simpl.
      by rewrite !app_nil_r. }
  rewrite !(bind_ok _ _ _ _ _ (Hparent log)).
  destruct (appends_for_each (child_step self candidate) before e0
              (appends_child_step self candidate)) as (rb & wb & Hbefore).
  rewrite !for_each_app.
  destruct rb as [e1|e].
  2:{ exists (Raise e), (wp ++ wb), [].
      rewrite !(bind_raise _ _ _ _ _ (Hbefore (log ++ wp))), (Hbefore (log ++ wp)).
      simpl. by rewrite !app_nil_r, <- !app_assoc. }
  rewrite !(bind_ok _ _ _ _ _ (Hbefore (log ++ wp))), (Hbefore (log ++ wp)).
  destruct (appends_for_each (child_step self candidate) rest e1
              (appends_child_step self candidate)) as (rr & wr & Hrest).
  exists rr, (wp ++ wb), wr. cbn [for_each fst returned].
  rewrite (bind_ok _ _ _ _ _ (child_step_ambiguous _ _ _ _ _ Hamb)).
  rewrite !Hrest. by rewrite <- !app_assoc.
Qed.

Lemma section_of_line_run self candidate patterns return_with_line log :
  section_property_autoparse self (ParentLine candidate) patterns
    return_with_line log
  = match section_entry self (ParentLine candidate) (OLine candidate)
            patterns log with
    | (Ok entry, log') =>
        (Ok (Some [if return_with_line
                   then EntryWithLine (OLine candidate) entry
                   else EntryDict entry]), log')
    | (Raise e, log') => (Raise e, log')
    end.
Proof.
  unfold section_property_autoparse. simpl.
  repeat (unfold mbind, Py_bind, mret, Py_ret; simpl).
  by destruct (section_entry self (ParentLine candidate) (OLine candidate)
                 patterns log) as [[e0|e] log0].
Qed.

(** The candidates of [section_property_autoparse] and what finding them
    appends to the log. *)
Lemma section_candidates_appended self parent log :
  parent ≠ ParentRegex RNone →
  ∃ w,
    match parent with
    | ParentLine l => mret [OLine l]
    | ParentRegex RNone => raise (UnboundLocalError "candidates")
    | ParentRegex r => find_objects self r MULTILINE GNone
    end log = (Ok (map OLine (parent_candidates self parent)), log ++ w).
Proof.
  intros Hparent. destruct parent as [l|r].
  { exists []. by rewrite app_nil_r. }
  assert (∃ w0, match r with
                | RPat p => mret (Some p)
                | _ => _compile_regex r MULTILINE
                end log = (Ok (searched_pattern r MULTILINE), log ++ w0))
    as [w0 Hpat].
  { destruct r as [|s|p]; simpl; unfold _compile_regex; simpl.
    - exists [(ERROR, CompileFailed RNone)]. reflexivity.
    - destruct (re_compile s MULTILINE).
      + exists []. by rewrite app_nil_r.
      + exists [(ERROR, CompileFailed (RStr s))]. reflexivity.
    - exists []. by rewrite app_nil_r. }
  assert (find_objects self r MULTILINE GNone log
          = (Ok (map OLine (parent_candidates self (ParentRegex r))),
             log ++ w0 ++ [(DEBUG, MatchedLines
                              (length (parent_candidates self (ParentRegex r)))
                              r)])) as Hfind.
  { unfold find_objects. rewrite (bind_ok _ _ _ _ _ Hpat), find_loop. simpl.
    unfold mbind, Py_bind, logger, mret, Py_ret.
    by rewrite length_map, <- app_assoc. }
  eexists. destruct r; [done|exact Hfind..].
Qed.

End Warned.

(** C9: let [pattern] match more than one direct child of [candidate].
    The iteration for that pattern appends the warning to the log and
    leaves the dictionary as it was.  For the dictionary of [candidate] as
    a candidate of any parent, and for the whole call of
    [section_property_autoparse] on the line [candidate], the result is the
    one computed without that pattern, and the log is the log of that
    computation with the warning inserted where the pattern stands,
    provided the patterns before it returned.  For any parent of which
    [candidate] is the candidate number [j], a call that returns has
    appended the warning to the log, and its entry number [j] holds the
    dictionary computed without that pattern. *)
Theorem ambiguous_children_skipped `{ReEngine} (self : BaseConfigParser)
    (candidate : BaseConfigLine) (pattern : Regex) :
  (2 <= length (matching_children candidate pattern))%nat →
  let warning := (WARNING, MultipleUpdates pattern candidate) in
  (∀ (entry : dict) (log : Log),
     Parser.child_step self candidate entry pattern log
     = (Ok entry, log ++ [warning]))
  ∧ (∀ (parent : Parent) (before rest : list Regex) (log : Log),
       let run patterns :=
         Parser.section_entry self parent (OLine candidate) patterns log in
       ∃ result w1 w2,
         run (before ++ rest) = (result, log ++ w1 ++ w2)
         ∧ run (before ++ pattern :: rest)
           = (result,
              log ++ w1
              ++ (if returned (run before).1 then [warning] else []) ++ w2))
  ∧ (∀ (before rest : list Regex) (return_with_line : bool) (log : Log),
       let call patterns :=
         Parser.section_property_autoparse self (ParentLine candidate)
           patterns return_with_line log in
       ∃ result w1 w2,
         call (before ++ rest) = (result, log ++ w1 ++ w2)
         ∧ call (before ++ pattern :: rest)
           = (result,
              log ++ w1
              ++ (if returned (call before).1 then [warning] else []) ++ w2))
  ∧ (∀ (parent : Parent) (j : nat) (before rest : list Regex)
       (return_with_line : bool) (log : Log),
       parent_candidates self parent !! j = Some candidate →
       match Parser.section_property_autoparse self parent
               (before ++ pattern :: rest) return_with_line log with
       | (Ok result, log') =>
           ∃ entries dictionary w,
             result = Some entries
             ∧ entries !! j
               = Some (if return_with_line
                       then EntryWithLine (OLine candidate) dictionary
                       else EntryDict dictionary)
             ∧ (Parser.section_entry self parent (OLine candidate)
                  (before ++ rest) log).1 = Ok dictionary
             ∧ log' = log ++ w
             ∧ warning ∈ w
       | (Raise _, _) => True
       end).
Proof.
  intros Hamb warning. split; [|split; [|split]].
  - intros entry log. by apply child_step_ambiguous.
  - intros parent before rest log. cbv zeta.
    destruct (section_entry_split self parent candidate before pattern rest log
                Hamb) as (result & w1 & w2 & Hwithout & Hwith & _).
    by exists result, w1, w2.
  - intros before rest return_with_line log. cbv zeta.
    destruct (section_entry_split self (ParentLine candidate) candidate before
                pattern rest log Hamb)
      as (result & w1 & w2 & Hwithout & Hwith & _).
    cbv zeta in Hwithout, Hwith.
    rewrite !section_of_line_run, Hwithout, Hwith.
    destruct (Parser.section_entry self (ParentLine candidate) (OLine candidate)
                before log) as [[e1|e] log1]; destruct result as [e2|e'];
      by eexists _, w1, w2.
  - intros parent j before rest return_with_line log Hj.
    assert (parent = ParentRegex RNone ∨ parent ≠ ParentRegex RNone)
      as [->|Hparent] by (destruct parent as [l|[|s|p]]; by auto).
    { done. }
    destruct (section_candidates_appended self parent log Hparent) as [w0 Hcands].
    rewrite (section_run _ _ _ _ _ _ _ Hcands), length_map.
    destruct (Nat.eqb_spec (length (parent_candidates self parent)) 0)
      as [Hlen|_].
    { apply lookup_lt_Some in Hj. lia. }
    match goal with |- context [for_each ?f ?a ?l ?lg] =>
      destruct (for_each f a l lg) as [[r|e] log'] eqn:Hloop end; [|done].
    apply (collect_trace _ _ _ _ _ _ _ j (OLine candidate)) in Hloop
      as (dictionary & wpre & wj & wpost & Hr & Hrun & ->);
      [|intros; apply appends_section_entry
       |by rewrite list_lookup_fmap, Hj].
    destruct (section_entry_split self parent candidate before pattern rest log
                Hamb) as (result & w1 & w2 & _ & Hwith & Hreached).
    cbv zeta in Hwith, Hreached. rewrite Hrun in Hwith.
    injection Hwith as <- Hlog%app_inv_head.
    rewrite Hreached in Hlog by done. subst wj.
    exists r, dictionary, (w0 ++ wpre ++ (w1 ++ [warning] ++ w2) ++ wpost).
    split; [done|]. split; [exact Hr|]. split; [|split].
    + rewrite <- (section_entry_skip self parent candidate before pattern rest
                    log Hamb). by rewrite Hrun.
    + by rewrite <- !app_assoc.
    + rewrite !elem_of_app. right; right; left. right; left.
      by apply list_elem_of_singleton.
Qed.

(** On the sample, [^ (?P<line>.*$)] matches both children of the first
    interface line. *)
Lemma ambiguous_children_skipped_witness :
  let self := Sample.with_minimal_results false in
  let pattern := RPat Sample.indented_pattern in
  let warning := (WARNING, MultipleUpdates pattern Sample.ethernet0) in
  (∃ result w1 w2,
     @Parser.section_property_autoparse Sample.compile_text self
       (ParentLine Sample.ethernet0) ([RPat Sample.ip_pattern] ++ []) false []
     = (result, [] ++ w1 ++ w2)
     ∧ @Parser.section_property_autoparse Sample.compile_text self
         (ParentLine Sample.ethernet0)
         ([RPat Sample.ip_pattern] ++ pattern :: []) false []
       = (result,
          [] ++ w1
          ++ (if returned
                   (@Parser.section_property_autoparse Sample.compile_text self
                      (ParentLine Sample.ethernet0) [RPat Sample.ip_pattern]
                      false []).1
              then [warning] else []) ++ w2))
  ∧ match @Parser.section_property_autoparse Sample.compile_text self
            (ParentRegex (RPat Sample.interface_pattern))
            ([] ++ pattern :: []) false [] with
    | (Ok result, log') =>
        ∃ entries dictionary w,
          result = Some entries
          ∧ entries !! 0%nat = Some (EntryDict dictionary)
          ∧ (@Parser.section_entry Sample.compile_text self
               (ParentRegex (RPat Sample.interface_pattern))
               (OLine Sample.ethernet0) ([] ++ []) []).1 = Ok dictionary
          ∧ log' = [] ++ w
          ∧ warning ∈ w
    | (Raise _, _) => True
    end.
Proof.
  assert (2 <= length (@matching_children Sample.compile_text Sample.ethernet0
                         (RPat Sample.indented_pattern)))%nat as Hamb
    by (vm_compute; lia).
  destruct (@ambiguous_children_skipped Sample.compile_text
              (Sample.with_minimal_results false) Sample.ethernet0
              (RPat Sample.indented_pattern) Hamb)
    as (_ & _ & Hline & Hany).
  split.
  - apply (Hline [RPat Sample.ip_pattern] [] false []).
  - apply (Hany (ParentRegex (RPat Sample.interface_pattern)) 0%nat [] []
             false []).
    reflexivity.
Defined.

(** On the sample the call returns, so that the warning is there. *)
Example ambiguous_children_logged :
  let run :=
    @Parser.section_property_autoparse Sample.compile_text
      (Sample.with_minimal_results false)
      (ParentRegex (RPat Sample.interface_pattern))
      [RPat Sample.indented_pattern] false [] in
  returned run.1 = true ∧ map fst run.2 = [DEBUG; WARNING].
Proof. split; vm_compute; reflexivity. Qed.
